(** * VoiceRecorder: the recording lifecycle of [src/components/VoiceRecorder.tsx]

    The React component keeps five pieces of [useState] state, four [useRef]
    cells, and talks to the browser: [getUserMedia], [MediaRecorder],
    [setInterval]/[clearInterval], [setTimeout], [toast] and [console.error].
    The embedding keeps all of them in one record, [Component]; every handler
    of the source is a function on that record, and the browser's answers
    (whether the microphone is granted, which chunk a recorder delivers, the
    value of [Math.random() * 3]) are arguments of the events.

    JavaScript numbers are taken at the non-negative integers, where the
    arithmetic of the source ([+ 1], [/ 60] under [Math.floor], [% 60]) is
    exact; a [Blob] is its bytes together with its declared media type. *)

From Stdlib Require Import String Ascii List Bool Arith NArith ZArith QArith Qround Lia.
From Equations Require Import Equations.
From Stdlib.Strings Require Byte.
Import ListNotations.

Local Open Scope string_scope.
Local Open Scope list_scope.
Local Open Scope N_scope.

(** ** Data *)

(** A [Blob]: its content and its [type]. [new Blob(parts, {type})]
    concatenates the parts in order. *)
Record Blob := mkBlob { blobBytes : list Byte.byte; blobType : string }.

Definition size (b : Blob) : N := N.of_nat (List.length (blobBytes b)).

Definition concatBytes (parts : list Blob) : list Byte.byte :=
  concat (map blobBytes parts).

Definition newBlob (parts : list Blob) (type : string) : Blob :=
  mkBlob (concatBytes parts) type.

Inductive ToastVariant := DefaultToast | Destructive.

Record Toast := mkToast {
  title : string;
  description : string;
  variant : ToastVariant
}.

(** Streams, recorders and timers are host objects; the component only holds
    references to them. *)
Definition Handle := nat.

(** [MediaRecorder.state], and whether the recorder still owes the events that
    [stop()] queues (the last [dataavailable], then [stop]). *)
Inductive RecordingState := inactive | recording | paused.

Record Recorder := mkRecorder { rstate : RecordingState; stopQueued : bool }.

Inductive AcquireError := PermissionDenied | DeviceUnavailable.

(** What the host answers during one run of [startRecording]: the three calls
    inside the [try] that can throw, or none of them does. *)
Inductive StartOutcome :=
| AcquireFails (e : AcquireError)   (* getUserMedia rejects *)
| ConstructFails                    (* new MediaRecorder(stream) throws *)
| RecorderStartFails                (* mediaRecorder.start() throws *)
| StartSucceeds.

Record Component := mkComponent {
  (* useState *)
  isRecording : bool;
  isPaused : bool;
  recordingTime : N;
  transcription : string;
  audioBlob : option Blob;
  (* useRef *)
  mediaRecorderRef : option Handle;
  streamRef : option Handle;
  chunksRef : list Blob;
  timerRef : option Handle;
  (* the host *)
  nextHandle : Handle;                    (* supply of fresh host objects *)
  liveStreams : list Handle;              (* streams whose tracks are live *)
  recorders : list (Handle * Recorder);   (* every MediaRecorder created *)
  intervals : list Handle;                (* setInterval timers not cleared *)
  timeouts : list N;                      (* pending setTimeout delays, ms *)
  toasts : list Toast;                    (* notifications shown, oldest first *)
  consoleErrors : list StartOutcome       (* what console.error was given *)
}.

(** The component as mounted: the [useState] and [useRef] initial values and a
    host that holds nothing. *)
Definition initial : Component :=
  mkComponent false false 0 "" None
    None None [] None
    O [] [] [] [] [] [].

Definition setIsRecording (v : bool) (c : Component) : Component :=
  match c with
  | mkComponent _ pau time txt blob mr st ch tm nh live recs ivs tos tsts errs =>
      mkComponent v pau time txt blob mr st ch tm nh live recs ivs tos tsts errs
  end.

Definition setIsPaused (v : bool) (c : Component) : Component :=
  match c with
  | mkComponent rec _ time txt blob mr st ch tm nh live recs ivs tos tsts errs =>
      mkComponent rec v time txt blob mr st ch tm nh live recs ivs tos tsts errs
  end.

Definition setRecordingTime (v : N) (c : Component) : Component :=
  match c with
  | mkComponent rec pau _ txt blob mr st ch tm nh live recs ivs tos tsts errs =>
      mkComponent rec pau v txt blob mr st ch tm nh live recs ivs tos tsts errs
  end.

Definition setTranscription (v : string) (c : Component) : Component :=
  match c with
  | mkComponent rec pau time _ blob mr st ch tm nh live recs ivs tos tsts errs =>
      mkComponent rec pau time v blob mr st ch tm nh live recs ivs tos tsts errs
  end.

Definition setAudioBlob (v : option Blob) (c : Component) : Component :=
  match c with
  | mkComponent rec pau time txt _ mr st ch tm nh live recs ivs tos tsts errs =>
      mkComponent rec pau time txt v mr st ch tm nh live recs ivs tos tsts errs
  end.

Definition withMediaRecorderRef (v : option Handle) (c : Component) : Component :=
  match c with
  | mkComponent rec pau time txt blob _ st ch tm nh live recs ivs tos tsts errs =>
      mkComponent rec pau time txt blob v st ch tm nh live recs ivs tos tsts errs
  end.

Definition withStreamRef (v : option Handle) (c : Component) : Component :=
  match c with
  | mkComponent rec pau time txt blob mr _ ch tm nh live recs ivs tos tsts errs =>
      mkComponent rec pau time txt blob mr v ch tm nh live recs ivs tos tsts errs
  end.

Definition withChunksRef (v : list Blob) (c : Component) : Component :=
  match c with
  | mkComponent rec pau time txt blob mr st _ tm nh live recs ivs tos tsts errs =>
      mkComponent rec pau time txt blob mr st v tm nh live recs ivs tos tsts errs
  end.

Definition withTimerRef (v : option Handle) (c : Component) : Component :=
  match c with
  | mkComponent rec pau time txt blob mr st ch _ nh live recs ivs tos tsts errs =>
      mkComponent rec pau time txt blob mr st ch v nh live recs ivs tos tsts errs
  end.

Definition withNextHandle (v : Handle) (c : Component) : Component :=
  match c with
  | mkComponent rec pau time txt blob mr st ch tm _ live recs ivs tos tsts errs =>
      mkComponent rec pau time txt blob mr st ch tm v live recs ivs tos tsts errs
  end.

Definition withLiveStreams (v : list Handle) (c : Component) : Component :=
  match c with
  | mkComponent rec pau time txt blob mr st ch tm nh _ recs ivs tos tsts errs =>
      mkComponent rec pau time txt blob mr st ch tm nh v recs ivs tos tsts errs
  end.

Definition withRecorders (v : list (Handle * Recorder)) (c : Component) : Component :=
  match c with
  | mkComponent rec pau time txt blob mr st ch tm nh live _ ivs tos tsts errs =>
      mkComponent rec pau time txt blob mr st ch tm nh live v ivs tos tsts errs
  end.

Definition withIntervals (v : list Handle) (c : Component) : Component :=
  match c with
  | mkComponent rec pau time txt blob mr st ch tm nh live recs _ tos tsts errs =>
      mkComponent rec pau time txt blob mr st ch tm nh live recs v tos tsts errs
  end.

Definition withTimeouts (v : list N) (c : Component) : Component :=
  match c with
  | mkComponent rec pau time txt blob mr st ch tm nh live recs ivs _ tsts errs =>
      mkComponent rec pau time txt blob mr st ch tm nh live recs ivs v tsts errs
  end.

Definition withToasts (v : list Toast) (c : Component) : Component :=
  match c with
  | mkComponent rec pau time txt blob mr st ch tm nh live recs ivs tos _ errs =>
      mkComponent rec pau time txt blob mr st ch tm nh live recs ivs tos v errs
  end.

Definition withConsoleErrors (v : list StartOutcome) (c : Component) : Component :=
  match c with
  | mkComponent rec pau time txt blob mr st ch tm nh live recs ivs tos tsts _ =>
      mkComponent rec pau time txt blob mr st ch tm nh live recs ivs tos tsts v
  end.

(** ** Host operations *)

Definition toast (t : Toast) (c : Component) : Component :=
  withToasts (toasts c ++ [t]) c.

Definition consoleError (o : StartOutcome) (c : Component) : Component :=
  withConsoleErrors (consoleErrors c ++ [o]) c.

Definition fresh (c : Component) : Handle * Component :=
  (nextHandle c, withNextHandle (S (nextHandle c)) c).

Definition removeHandle (h : Handle) (hs : list Handle) : list Handle :=
  filter (fun h' => negb (Nat.eqb h h')) hs.

(** [navigator.mediaDevices.getUserMedia({audio: true})], when it resolves. *)
Definition getUserMedia (c : Component) : Handle * Component :=
  let (s, c) := fresh c in (s, withLiveStreams (liveStreams c ++ [s]) c).

(** [stream.getTracks().forEach(track => track.stop())] *)
Definition stopTracks (s : Handle) (c : Component) : Component :=
  withLiveStreams (removeHandle s (liveStreams c)) c.

Definition setInterval (c : Component) : Handle * Component :=
  let (t, c) := fresh c in (t, withIntervals (intervals c ++ [t]) c).

Definition clearInterval (t : Handle) (c : Component) : Component :=
  withIntervals (removeHandle t (intervals c)) c.

Definition setTimeout (delay : N) (c : Component) : Component :=
  withTimeouts (timeouts c ++ [delay]) c.

Definition idleRecorder : Recorder := mkRecorder inactive false.

Fixpoint lookupRecorder (r : Handle) (rs : list (Handle * Recorder)) : Recorder :=
  match rs with
  | [] => idleRecorder
  | (h, x) :: rs' => if Nat.eqb r h then x else lookupRecorder r rs'
  end.

Fixpoint updateRecorder (r : Handle) (x : Recorder) (rs : list (Handle * Recorder))
  : list (Handle * Recorder) :=
  match rs with
  | [] => []
  | (h, y) :: rs' =>
      if Nat.eqb r h then (h, x) :: rs' else (h, y) :: updateRecorder r x rs'
  end.

Definition getRecorder (r : Handle) (c : Component) : Recorder :=
  lookupRecorder r (recorders c).

Definition putRecorder (r : Handle) (x : Recorder) (c : Component) : Component :=
  withRecorders (updateRecorder r x (recorders c)) c.

(** [new MediaRecorder(stream)], when it returns. *)
Definition newMediaRecorder (c : Component) : Handle * Component :=
  let (r, c) := fresh c in (r, withRecorders ((r, idleRecorder) :: recorders c) c).

(** [recorder.start()], when it returns. *)
Definition recorderStart (r : Handle) (c : Component) : Component :=
  putRecorder r (mkRecorder recording (stopQueued (getRecorder r c))) c.

(** [recorder.pause()] and [recorder.resume()] throw [InvalidStateError] on an
    inactive recorder: [None] is the uncaught exception. *)
Definition recorderPause (r : Handle) (c : Component) : option Component :=
  match rstate (getRecorder r c) with
  | inactive => None
  | _ => Some (putRecorder r (mkRecorder paused (stopQueued (getRecorder r c))) c)
  end.

Definition recorderResume (r : Handle) (c : Component) : option Component :=
  match rstate (getRecorder r c) with
  | inactive => None
  | _ => Some (putRecorder r (mkRecorder recording (stopQueued (getRecorder r c))) c)
  end.

(** [recorder.stop()] returns at once on an inactive recorder; otherwise the
    recorder becomes inactive and owes its last chunk and its [stop] event. *)
Definition recorderStop (r : Handle) (c : Component) : Component :=
  match rstate (getRecorder r c) with
  | inactive => c
  | _ => putRecorder r (mkRecorder inactive true) c
  end.

(** ** The component's functions *)

(** [timerRef.current = setInterval(() => setRecordingTime(prev => prev + 1), 1000)] *)
Definition startTimer (c : Component) : Component :=
  let (t, c) := setInterval c in withTimerRef (Some t) c.

Definition stopTimer (c : Component) : Component :=
  match timerRef c with
  | Some t => withTimerRef None (clearInterval t c)
  | None => c
  end.

(** The callback of the interval. *)
Definition intervalCallback (c : Component) : Component :=
  setRecordingTime (recordingTime c + 1) c.

(** [Number.prototype.toString()] on a non-negative integer: its decimal
    numeral. *)
Definition digitChar (d : N) : ascii := ascii_of_N (48 + d).

Definition inspect {A : Type} (a : A) : {b : A | a = b} := exist _ a eq_refl.

Equations? toString (n : N) : string by wf (N.to_nat n) lt :=
  toString n with inspect (N.ltb n 10) := {
    | exist _ true _ => String (digitChar n) EmptyString
    | exist _ false _ =>
        (toString (n / 10) ++ String (digitChar (n mod 10)) EmptyString)%string
  }.
Proof.
  assert (10 <= n) by (apply N.ltb_ge; assumption).
  assert (n / 10 < n) by (apply N.div_lt; lia).
  lia.
Defined.

(** [String.prototype.padStart(targetLength, padString)]: the pad string is
    repeated, and cut, to fill what is missing on the left. *)
Fixpoint fillFrom (k : nat) (rest pad : string) : string :=
  match k with
  | O => EmptyString
  | S k' =>
      match rest with
      | String a r => String a (fillFrom k' r pad)
      | EmptyString =>
          match pad with
          | String a r => String a (fillFrom k' r pad)
          | EmptyString => EmptyString
          end
      end
  end.

Definition padStart (targetLength : nat) (padString : string) (s : string) : string :=
  if (targetLength <=? String.length s)%nat then s
  else (fillFrom (targetLength - String.length s) padString padString ++ s)%string.

(** [Number.MAX_SAFE_INTEGER], 2^53 - 1. Up to it the source's double
    arithmetic agrees with the integer arithmetic below: [seconds / 60] is
    rounded by less than 1/60 before [Math.floor], [%] is exact, and
    [toString] prints all the digits. Above it the functions below are not
    a model of the source. *)
Definition maxSafeInteger : N := 9007199254740991.

Definition formatTime (seconds : N) : string :=
  let mins := seconds / 60 in
  let secs := seconds mod 60 in
  (padStart 2 "0" (toString mins) ++ ":" ++ padStart 2 "0" (toString secs))%string.

(** The handler installed as [mediaRecorder.ondataavailable]. *)
Definition ondataavailable (data : Blob) (c : Component) : Component :=
  if 0 <? size data then withChunksRef (chunksRef c ++ [data]) c else c.

Definition simulateTranscription (c : Component) : Component :=
  setTimeout 2000 c.

(** The handler installed as [mediaRecorder.onstop]. *)
Definition onstop (c : Component) : Component :=
  let blob := newBlob (chunksRef c) "audio/wav" in
  simulateTranscription (setAudioBlob (Some blob) c).

(** The [catch] block of [startRecording]. *)
Definition catchStart (o : StartOutcome) (c : Component) : Component :=
  toast (mkToast "Erro"
           "Não foi possível acessar o microfone. Verifique as permissões."
           Destructive)
        (consoleError o c).

(** [startRecording], run from the point where [getUserMedia] settles; the
    statements before a throwing call have taken effect when the [catch]
    block runs. *)
Definition startRecording (o : StartOutcome) (c : Component) : Component :=
  match o with
  | AcquireFails _ => catchStart o c
  | _ =>
    let (stream, c) := getUserMedia c in
    let c := withStreamRef (Some stream) c in
    match o with
    | ConstructFails => catchStart o c
    | _ =>
      let (mediaRecorder, c) := newMediaRecorder c in
      let c := withMediaRecorderRef (Some mediaRecorder) c in
      let c := withChunksRef [] c in
      match o with
      | RecorderStartFails => catchStart o c
      | _ =>
        let c := recorderStart mediaRecorder c in
        let c := setIsRecording true c in
        let c := setIsPaused false c in
        let c := startTimer c in
        toast (mkToast "Gravação iniciada" "Começando a gravar áudio..." DefaultToast) c
      end
    end
  end.

Definition pauseRecording (c : Component) : option Component :=
  match mediaRecorderRef c with
  | Some mediaRecorder =>
    if isRecording c then
      if isPaused c then
        match recorderResume mediaRecorder c with
        | Some c =>
          let c := startTimer c in
          let c := setIsPaused false c in
          Some (toast (mkToast "Gravação retomada" "Continuando a gravação..." DefaultToast) c)
        | None => None
        end
      else
        match recorderPause mediaRecorder c with
        | Some c =>
          let c := stopTimer c in
          let c := setIsPaused true c in
          Some (toast (mkToast "Gravação pausada" "Gravação pausada temporariamente."
                         DefaultToast) c)
        | None => None
        end
    else Some c
  | None => Some c
  end.

Definition stopRecording (c : Component) : Component :=
  match mediaRecorderRef c with
  | Some mediaRecorder =>
    if isRecording c then
      let c := recorderStop mediaRecorder c in
      let c := stopTimer c in
      let c := setIsRecording false c in
      let c := setIsPaused false c in
      let c := match streamRef c with
               | Some stream => stopTracks stream c
               | None => c
               end in
      toast (mkToast "Gravação finalizada" "Processando transcrição..." DefaultToast) c
    else c
  | None => c
  end.

Definition resetRecording (c : Component) : Component :=
  let c := setRecordingTime 0 c in
  let c := setTranscription "" c in
  let c := setAudioBlob None c in
  let c := setIsRecording false c in
  let c := setIsPaused false c in
  stopTimer c.

Definition sampleTranscriptions : list string :=
  [ "Esta é uma transcrição de exemplo do seu áudio gravado. Em um aplicativo real, isso seria processado por um serviço de transcrição como Google Speech-to-Text ou Azure Speech Services.";
    "Olá, esta é uma demonstração do recurso de transcrição de voz. O áudio foi gravado com sucesso e está sendo processado para texto.";
    "Transcrição concluída! Este texto representa o que foi falado durante a gravação. A qualidade da transcrição depende da clareza do áudio e da qualidade do microfone." ].

(** [Math.floor(Math.random() * sampleTranscriptions.length)]. The argument
    is the double that the host's multiplication yields, a rational number;
    [Math.floor] is exact on it. The rounding of the product itself is the
    host's floating-point arithmetic and is not computed here. *)
Definition randomIndex (product : Q) : Z := Qfloor product.

(** [sampleTranscriptions[i]]; [None] is [undefined]. *)
Definition sampleAt (i : Z) : option string :=
  if (i <? 0)%Z then None else nth_error sampleTranscriptions (Z.to_nat i).

(** The callback that [simulateTranscription] hands to [setTimeout]; the
    argument is the value of [Math.random() * sampleTranscriptions.length].
    An [undefined] element would be shown like the empty string. *)
Definition transcriptionCallback (product : Q) (c : Component) : Component :=
  let randomTranscription :=
    match sampleAt (randomIndex product) with Some s => s | None => "" end in
  toast (mkToast "Transcrição concluída" "O áudio foi transcrito com sucesso!" DefaultToast)
        (setTranscription randomTranscription c).

(** The cleanup function returned by the [useEffect]: it runs on unmount. *)
Definition cleanup (c : Component) : Component :=
  let c := match timerRef c with
           | Some t => clearInterval t c
           | None => c
           end in
  match streamRef c with
  | Some stream => stopTracks stream c
  | None => c
  end.

(** [Date.prototype.toISOString()]: the UTC fields as the string shows them
    (the month counted from 1); a year above 9999 takes the expanded form. *)
Record Date := mkDate {
  isoYear : N; isoMonth : N; isoDay : N;
  isoHours : N; isoMinutes : N; isoSeconds : N; isoMilliseconds : N
}.

Definition pad (width : nat) (n : N) : string := padStart width "0" (toString n).

Definition toISOString (d : Date) : string :=
  ((if (isoYear d <=? 9999)%N then pad 4 (isoYear d) else "+" ++ pad 6 (isoYear d))
   ++ "-" ++ pad 2 (isoMonth d) ++ "-" ++ pad 2 (isoDay d)
   ++ "T" ++ pad 2 (isoHours d) ++ ":" ++ pad 2 (isoMinutes d)
   ++ ":" ++ pad 2 (isoSeconds d) ++ "." ++ pad 3 (isoMilliseconds d) ++ "Z")%string.

(** [s.slice(0, end)] *)
Definition slice0 (stop : nat) (s : string) : string := substring 0 stop s.

(** [s.replace(/:/g, '-')] *)
Fixpoint replaceColons (s : string) : string :=
  match s with
  | EmptyString => EmptyString
  | String a s' => String (if Ascii.eqb a ":" then "-"%char else a) (replaceColons s')
  end.

Definition downloadName (now : Date) : string :=
  ("gravacao-" ++ replaceColons (slice0 19 (toISOString now)) ++ ".wav")%string.

(** [downloadAudio]: the [download] attribute of the anchor it clicks and the
    blob behind the anchor's URL; nothing happens without a blob. *)
Definition downloadAudio (now : Date) (c : Component) : option (string * Blob) :=
  match audioBlob c with
  | Some blob => Some (downloadName now, blob)
  | None => None
  end.

(** ** The rendered controls *)

Inductive Control :=
| MicCircle | StartButton | PauseButton | StopButton
| ResetButton | DownloadButton | CopyButton.

Inductive Action :=
| DoStartRecording | DoPauseRecording | DoStopRecording
| DoResetRecording | DoDownloadAudio | DoCopyText.

Definition truthy (s : string) : bool := negb (String.eqb s "").

Definition hasBlob (c : Component) : bool :=
  match audioBlob c with Some _ => true | None => false end.

(** What a click on a control runs in the current render; [None] when the
    control is not rendered or carries no handler. *)
Definition onClick (ctl : Control) (c : Component) : option Action :=
  let showExtras :=
    ((0 <? recordingTime c) || truthy (transcription c) || hasBlob c)
    && negb (isRecording c) in
  match ctl with
  | MicCircle => if negb (isRecording c) then Some DoStartRecording else None
  | StartButton => if negb (isRecording c) then Some DoStartRecording else None
  | PauseButton => if isRecording c then Some DoPauseRecording else None
  | StopButton => if isRecording c then Some DoStopRecording else None
  | ResetButton => if showExtras then Some DoResetRecording else None
  | DownloadButton => if showExtras && hasBlob c then Some DoDownloadAudio else None
  | CopyButton => if truthy (transcription c) then Some DoCopyText else None
  end.

(** The label of the pause button: it resumes when the recording is paused. *)
Definition pauseLabel (c : Component) : string :=
  if isPaused c then "Retomar" else "Pausar".

(** ** Events and runs *)

Inductive Event :=
| EvStart (o : StartOutcome)             (* startRecording, with the host's answers *)
| EvPause                                (* pauseRecording: pause or resume *)
| EvStop                                 (* stopRecording *)
| EvReset                                (* resetRecording *)
| EvData (r : Handle) (data : Blob)      (* recorder r fires dataavailable *)
| EvRecorderStop (r : Handle)            (* recorder r fires stop *)
| EvSecond                               (* a second passes: the intervals fire *)
| EvTranscription (product : Q).         (* a pending timeout fires *)

(** One second of wall-clock time: every interval that is still set fires its
    callback once. *)
Definition secondTick (c : Component) : Component :=
  fold_left (fun c _ => intervalCallback c) (intervals c) c.

Definition handle (e : Event) (c : Component) : option Component :=
  match e with
  | EvStart o => Some (startRecording o c)
  | EvPause => pauseRecording c
  | EvStop => Some (stopRecording c)
  | EvReset => Some (resetRecording c)
  | EvData _ data => Some (ondataavailable data c)
  | EvRecorderStop r =>
      Some (onstop (putRecorder r (mkRecorder (rstate (getRecorder r c)) false) c))
  | EvSecond => Some (secondTick c)
  | EvTranscription product =>
      Some (transcriptionCallback product (withTimeouts (tl (timeouts c)) c))
  end.

Definition isIdle (x : Recorder) : bool :=
  match rstate x with inactive => negb (stopQueued x) | _ => false end.

(** No recorder is running or still owes its final events. *)
Definition quiescent (c : Component) : bool :=
  forallb (fun hx => isIdle (snd hx)) (recorders c).

(** The failures of [start()] that the lifecycle knows: the device could not
    be acquired. *)
Definition acquisitionOutcome (o : StartOutcome) : bool :=
  match o with
  | AcquireFails _ | StartSucceeds => true
  | ConstructFails | RecorderStartFails => false
  end.

(** The lifecycle's valid transitions, and what the host may do: [start] and
    [reset] when nothing is being recorded and the last recording has been
    delivered; [pause], [resume] and [stop] during a recording; a recorder
    delivers data while it records or when it flushes after [stop()], never
    while paused; it fires [stop] once per [stop()]; [Math.random()] lies in
    [0, 1), so that its product with the number of samples lies in [0, 3). *)
Definition allowed (e : Event) (c : Component) : bool :=
  match e with
  | EvStart o => negb (isRecording c) && quiescent c && acquisitionOutcome o
  | EvPause => isRecording c
  | EvStop => isRecording c
  | EvReset => negb (isRecording c) && quiescent c
  | EvData r _ =>
      match rstate (getRecorder r c) with
      | recording => true
      | _ => stopQueued (getRecorder r c)
      end
  | EvRecorderStop r => stopQueued (getRecorder r c)
  | EvSecond => true
  | EvTranscription product =>
      match timeouts c with [] => false | _ :: _ => true end
      && Qle_bool 0 product
      && negb (Qle_bool (inject_Z (Z.of_nat (List.length sampleTranscriptions)))
                        product)
  end.

(** Any sequence of events, as the handlers take them. *)
Fixpoint exec (es : list Event) (c : Component) : option Component :=
  match es with
  | [] => Some c
  | e :: es' =>
      match handle e c with
      | Some c' => exec es' c'
      | None => None
      end
  end.

(** A sequence of valid transitions. *)
Fixpoint run (es : list Event) (c : Component) : option Component :=
  match es with
  | [] => Some c
  | e :: es' =>
      if allowed e c then
        match handle e c with
        | Some c' => run es' c'
        | None => None
        end
      else None
  end.

(** The lifecycle state of the specification, read off the component, which
    has two flags and no [Stopped] flag of its own: a component that is not
    recording counts as [Stopped] while it holds a result blob. *)
Inductive Lifecycle := Idle | Recording | Paused | Stopped.

Definition lifecycle (c : Component) : Lifecycle :=
  if isRecording c then (if isPaused c then Paused else Recording)
  else if hasBlob c then Stopped else Idle.

(** ** Clicks and pending promises *)

(** [startRecording] awaits [getUserMedia] before it touches anything: a
    click on a start control only leaves a request pending, and the rest of
    the function runs when the host settles it, in whatever state the
    component is by then. The other handlers run at the click. *)
Record Page := mkPage { pendingStarts : nat; component : Component }.

Inductive PageEvent :=
| Click (ctl : Control)          (* a click on a control as rendered now *)
| Settle (o : StartOutcome)      (* a pending getUserMedia settles *)
| Host (e : Event)               (* a recorder, timer or timeout event *)
| Unmount.                       (* React runs the effect's cleanup *)

Definition isHostEvent (e : Event) : bool :=
  match e with
  | EvData _ _ | EvRecorderStop _ | EvSecond | EvTranscription _ => true
  | _ => false
  end.

Definition pageStep (pe : PageEvent) (p : Page) : option Page :=
  let c := component p in
  let n := pendingStarts p in
  match pe with
  | Click ctl =>
      match onClick ctl c with
      | Some DoStartRecording => Some (mkPage (S n) c)
      | Some DoPauseRecording => option_map (mkPage n) (pauseRecording c)
      | Some DoStopRecording => Some (mkPage n (stopRecording c))
      | Some DoResetRecording => Some (mkPage n (resetRecording c))
      | Some DoDownloadAudio | Some DoCopyText => Some p
      | None => None
      end
  | Settle o =>
      match n with
      | S n' => Some (mkPage n' (startRecording o c))
      | O => None
      end
  | Host e =>
      if isHostEvent e && allowed e c then option_map (mkPage n) (handle e c)
      else None
  | Unmount => Some (mkPage n (cleanup c))
  end.

Fixpoint pageRun (pes : list PageEvent) (p : Page) : option Page :=
  match pes with
  | [] => Some p
  | pe :: pes' =>
      match pageStep pe p with
      | Some p' => pageRun pes' p'
      | None => None
      end
  end.

Definition initialPage : Page := mkPage 0 initial.

(** ** Runs: invariant, chunk bookkeeping and sample data *)

Definition allIdle (rs : list (Handle * Recorder)) : bool :=
  forallb (fun hx => isIdle (snd hx)) rs.

(** The four shapes of a component along a valid run: at rest (idle or
    stopped), between [stop()] and the recorder's [stop] event, recording,
    and paused. At most one timer, one live stream and one busy recorder
    exist, and they are the ones the refs point to. *)
Inductive Inv (c : Component) : Prop :=
| InvRest :
    isRecording c = false -> isPaused c = false ->
    timerRef c = None -> intervals c = [] -> liveStreams c = [] ->
    quiescent c = true -> Inv c
| InvStopping (r : Handle) (rest : list (Handle * Recorder)) :
    isRecording c = false -> isPaused c = false ->
    timerRef c = None -> intervals c = [] -> liveStreams c = [] ->
    recorders c = (r, mkRecorder inactive true) :: rest -> allIdle rest = true ->
    Inv c
| InvRecording (r s t : Handle) (rest : list (Handle * Recorder)) :
    isRecording c = true -> isPaused c = false ->
    mediaRecorderRef c = Some r -> streamRef c = Some s ->
    timerRef c = Some t -> intervals c = [t] -> liveStreams c = [s] ->
    recorders c = (r, mkRecorder recording false) :: rest -> allIdle rest = true ->
    Inv c
| InvPaused (r s : Handle) (rest : list (Handle * Recorder)) :
    isRecording c = true -> isPaused c = true ->
    mediaRecorderRef c = Some r -> streamRef c = Some s ->
    timerRef c = None -> intervals c = [] -> liveStreams c = [s] ->
    recorders c = (r, mkRecorder paused false) :: rest -> allIdle rest = true ->
    Inv c.

Definition scenarioPauseResume : list Event :=
  [EvStart StartSucceeds; EvPause; EvSecond; EvSecond; EvSecond;
   EvPause; EvSecond; EvSecond; EvStop].

Definition nonEmpty (b : Blob) : bool := 0 <? size b.

(** The chunks that the recorders hand to [ondataavailable] during a run, in
    the order of arrival. *)
Fixpoint delivered (es : list Event) : list Blob :=
  match es with
  | [] => []
  | EvData _ data :: es' => data :: delivered es'
  | _ :: es' => delivered es'
  end.

Definition isRecorderStop (e : Event) : bool :=
  match e with EvRecorderStop _ => true | _ => false end.

(** The specification's reading of the same run: the chunks that arrive
    between [start()] or [resume()] and the matching [pause()] or [stop()].
    A [stop()] is complete when the recorder has fired its [stop] event, so
    what the recorder flushes after the call belongs to the stop. *)
Definition chunkOf (pausedNow : bool) (e : Event) : list Blob :=
  match e with
  | EvData _ data => if pausedNow then [] else [data]
  | _ => []
  end.

Definition pausedAfter (pausedNow : bool) (e : Event) : bool :=
  match e with
  | EvPause => negb pausedNow
  | EvStop => false
  | _ => pausedNow
  end.

Fixpoint recordedChunks (pausedNow : bool) (es : list Event) : list Blob :=
  match es with
  | [] => []
  | e :: es' => chunkOf pausedNow e ++ recordedChunks (pausedAfter pausedNow e) es'
  end.

Definition twoBytes : Blob := mkBlob [Byte.x52; Byte.x49] "audio/webm".
Definition noBytes : Blob := mkBlob [] "audio/webm".

Definition sessionBody : list Event :=
  [EvData 1%nat twoBytes; EvPause; EvSecond; EvPause; EvData 1%nat noBytes;
   EvStop; EvData 1%nat twoBytes].

Definition oneRecording : list Event :=
  [EvStart StartSucceeds; EvStop; EvData 1%nat twoBytes; EvRecorderStop 1%nat].

(** Decimal numerals and the characters of a file name. *)
Section DecimalStrings.
Local Open Scope string_scope.

Definition isDigit (a : ascii) : bool :=
  ((48 <=? N_of_ascii a) && (N_of_ascii a <=? 57))%N.

Fixpoint allDigits (s : string) : bool :=
  match s with
  | EmptyString => true
  | String a s' => isDigit a && allDigits s'
  end.

Definition digitValue (a : ascii) : N := (N_of_ascii a - 48)%N.

(** The number a string of decimal digits denotes. *)
Fixpoint numeralFrom (acc : N) (s : string) : N :=
  match s with
  | EmptyString => acc
  | String a s' => numeralFrom (10 * acc + digitValue a) s'
  end.

Definition numeral (s : string) : N := numeralFrom 0 s.

Fixpoint zeros (k : nat) : string :=
  match k with
  | O => EmptyString
  | S k' => String "0" (zeros k')
  end.

Fixpoint pow10 (k : nat) : N :=
  match k with
  | O => 1
  | S k' => 10 * pow10 k'
  end.

Fixpoint noColon (s : string) : bool :=
  match s with
  | EmptyString => true
  | String a s' => negb (Ascii.eqb a ":") && noColon s'
  end.

(** The fields of a date as [toISOString] prints them in the four-digit-year
    form. *)
Definition validDate (d : Date) : bool :=
  ((isoYear d <=? 9999) && (1 <=? isoMonth d) && (isoMonth d <=? 12)
   && (1 <=? isoDay d) && (isoDay d <=? 31) && (isoHours d <? 24)
   && (isoMinutes d <? 60) && (isoSeconds d <? 60)
   && (isoMilliseconds d <? 1000))%N.

End DecimalStrings.

Definition doneToast : Toast :=
  mkToast "Transcrição concluída" "O áudio foi transcrito com sucesso!" DefaultToast.

(** ** Further notions: the counter's view, failures, strays *)

(** The lifecycle as the counter sees it: two flags and the seconds counted.
    A tick counts while recording and not paused, [reset] zeroes the count,
    and nothing else touches it. *)
Definition counterView (c : Component) : bool * bool * N :=
  (isRecording c, isPaused c, recordingTime c).

Definition counterStep (a : bool * bool * N) (e : Event) : bool * bool * N :=
  let '(rec, pau, n) := a in
  match e with
  | EvStart StartSucceeds => (true, false, n)
  | EvPause => (rec, negb pau, n)
  | EvStop => (false, false, n)
  | EvReset => (false, false, 0)
  | EvSecond => if rec && negb pau then (rec, pau, n + 1) else a
  | _ => a
  end.

Definition isDestructive (t : Toast) : bool :=
  match variant t with Destructive => true | DefaultToast => false end.

(** The events in which [startRecording] ends in its [catch] block. *)
Definition startFails (e : Event) : bool :=
  match e with
  | EvStart StartSucceeds => false
  | EvStart _ => true
  | _ => false
  end.

(** Every timer and stream the host holds was handed out before. *)
Definition handedOut (c : Component) : Prop :=
  (forall h, In h (intervals c) -> (h < nextHandle c)%nat) /\
  (forall h, In h (liveStreams c) -> (h < nextHandle c)%nat).

(** A timer that is set, handed out and not the one in [timerRef]. *)
Definition strayTimer (t : Handle) (c : Component) : Prop :=
  In t (intervals c) /\ timerRef c <> Some t /\ (t < nextHandle c)%nat.

Definition strayStream (s : Handle) (c : Component) : Prop :=
  In s (liveStreams c) /\ streamRef c <> Some s /\ (s < nextHandle c)%nat.

(** * Properties *)

(** ** Invariant of valid runs *)

Lemma allIdle_lookup (r : Handle) (rs : list (Handle * Recorder)) :
  allIdle rs = true -> isIdle (lookupRecorder r rs) = true.
Proof.
  induction rs as [|[h x] rs IH]; simpl; intros H; [reflexivity|].
  apply andb_true_iff in H as [Hx Hrs].
  destruct (Nat.eqb r h); auto.
Qed.

Lemma isIdle_fields (x : Recorder) :
  isIdle x = true -> rstate x = inactive /\ stopQueued x = false.
Proof.
  unfold isIdle. destruct x as [[] []]; simpl; intros H; try discriminate; auto.
Qed.

Lemma lookup_rest_idle (r : Handle) (rest : list (Handle * Recorder)) :
  allIdle rest = true ->
  rstate (lookupRecorder r rest) = inactive /\
  stopQueued (lookupRecorder r rest) = false.
Proof. intros H. apply isIdle_fields, allIdle_lookup, H. Qed.

Lemma initial_Inv : Inv initial.
Proof. apply InvRest; reflexivity. Qed.

Ltac unfold_handlers :=
  unfold handle, allowed, startRecording, pauseRecording, stopRecording,
    resetRecording, ondataavailable, onstop, catchStart, simulateTranscription,
    transcriptionCallback, secondTick, intervalCallback, startTimer, stopTimer, cleanup,
    recorderStart, recorderPause, recorderResume, recorderStop,
    getUserMedia, newMediaRecorder, setInterval, clearInterval, setTimeout,
    stopTracks, fresh, toast, consoleError, getRecorder, putRecorder,
    quiescent, removeHandle in *.

Ltac flatten c := destruct c; simpl in *; subst; simpl in *.

Ltac crunch :=
  unfold_handlers; cbn in *;
  rewrite ?Nat.eqb_refl, ?andb_false_r, ?andb_true_r in *; cbn in *.

Ltac idle_contra r rest :=
  match goal with
  | HI : allIdle rest = true |- _ =>
      let Hs := fresh in let Hq := fresh in
      destruct (lookup_rest_idle r rest HI) as [Hs Hq];
      rewrite ?Hs, ?Hq in *; cbn in *; try discriminate
  end.

Ltac close_inv :=
  first
    [ solve [eapply InvRest; crunch; eauto]
    | solve [eapply InvStopping; crunch; eauto]
    | solve [eapply InvRecording; crunch; eauto]
    | solve [eapply InvPaused; crunch; eauto] ].

Lemma step_Inv (e : Event) (c c' : Component) :
  Inv c -> allowed e c = true -> handle e c = Some c' -> Inv c'.
Proof.
  intros HI Ha Hh.
  destruct HI; destruct e as [[[]| | |]| | | |r' d|r'| |q]; flatten c; crunch;
    try discriminate.
  all: try (injection Hh as <-).
  all: try close_inv.
  all: try match goal with
       | H : forallb _ ?rs = true |- _ =>
           let Hs := fresh in let Hq := fresh in
           destruct (lookup_rest_idle r' rs H) as [Hs Hq];
           rewrite ?Hs, ?Hq in *; discriminate
       end.
  all: match goal with
       | H : allIdle ?rest = true |- _ =>
           destruct (Nat.eqb r' r) eqn:E; cbn in *; try discriminate;
           try (let Hs := fresh in let Hq := fresh in
                destruct (lookup_rest_idle r' rest H) as [Hs Hq];
                rewrite ?Hs, ?Hq in *; discriminate)
       end.
  all: try (destruct (0 <? size d)); try close_inv.
Qed.

Lemma run_Inv (es : list Event) (c c' : Component) :
  Inv c -> run es c = Some c' -> Inv c'.
Proof.
  revert c. induction es as [|e es IH]; simpl; intros c HI H.
  - injection H as <-. exact HI.
  - destruct (allowed e c) eqn:Ha; [|discriminate].
    destruct (handle e c) as [c1|] eqn:Hh; [|discriminate].
    eapply IH; [|exact H]. eapply step_Inv; eauto.
Qed.

Lemma run_app (es1 es2 : list Event) (c : Component) :
  run (es1 ++ es2) c =
  match run es1 c with Some c1 => run es2 c1 | None => None end.
Proof.
  revert c. induction es1 as [|e es1 IH]; simpl; intros c; [reflexivity|].
  destruct (allowed e c); [|reflexivity].
  destruct (handle e c); [apply IH|reflexivity].
Qed.

(** Every valid run is a run of the handlers. *)
Lemma run_exec (es : list Event) (c c' : Component) :
  run es c = Some c' -> exec es c = Some c'.
Proof.
  revert c. induction es as [|e es IH]; simpl; intros c H; [exact H|].
  destruct (allowed e c); [|discriminate].
  destruct (handle e c); [auto|discriminate].
Qed.

(** A valid transition never raises: the handler returns. *)
Lemma step_total (e : Event) (c : Component) :
  Inv c -> allowed e c = true -> exists c', handle e c = Some c'.
Proof.
  intros HI Ha.
  destruct e; try (eexists; reflexivity).
  destruct HI; flatten c; crunch; try discriminate; eexists; reflexivity.
Qed.

(** ** The elapsed-time counter *)

(** Along every sequence of valid transitions in which each [start()]
    settles at once, a second-tick
    adds exactly 1 to [recordingTime] when the lifecycle state is Recording and
    leaves it as it is in every other state; no other transition changes it,
    apart from [reset], which is outside the claim. In the scenario start,
    pause, three ticks, resume, two ticks, stop, the counter ends at 2. *)
Theorem elapsed_counts_recording_seconds (es : list Event) (c : Component) :
  run es initial = Some c ->
  recordingTime (secondTick c) =
    match lifecycle c with
    | Recording => recordingTime c + 1
    | _ => recordingTime c
    end
  /\ (forall e c', allowed e c = true -> handle e c = Some c' ->
        e <> EvSecond -> e <> EvReset -> recordingTime c' = recordingTime c)
  /\ option_map recordingTime (run scenarioPauseResume initial) = Some 2.
Proof.
  intros Hrun. pose proof (run_Inv _ _ _ initial_Inv Hrun) as HI.
  split; [|split].
  - clear Hrun. unfold lifecycle, hasBlob.
    destruct HI; flatten c; crunch;
      repeat match goal with
             | |- context [match ?x with Some _ => _ | None => _ end] =>
                 destruct x; cbn
             end; reflexivity.
  - clear Hrun. intros e c' Ha Hh Hs Hr.
    destruct e as [[[]| | |]| | | |r' d|r'| |q]; try congruence;
      destruct HI; flatten c; crunch; try discriminate;
      try (destruct (0 <? size d)); injection Hh as <-; reflexivity.
  - reflexivity.
Qed.

Lemma elapsed_counts_recording_seconds_witness :
  exists c,
    run [EvStart StartSucceeds; EvSecond] initial = Some c /\
    lifecycle c = Recording /\
    recordingTime c = 1 /\ recordingTime (secondTick c) = 2.
Proof.
  eexists. split; [reflexivity|]. split; [reflexivity|]. split; [reflexivity|].
  exact (proj1 (elapsed_counts_recording_seconds
                  [EvStart StartSucceeds; EvSecond] _ eq_refl)).
Defined.

(** ** Release of the stream and of the timer *)

(** In every state that valid transitions reach, when each [start()]
    settles at once and fails only at acquisition, [stopRecording] called
    during a recording (Recording or Paused) and the unmount cleanup called in
    any state leave no live stream track and no running interval; a component
    that is not recording (Idle, Stopped) holds neither. *)
Theorem stop_and_teardown_release (es : list Event) (c : Component) :
  run es initial = Some c ->
  (liveStreams (cleanup c) = [] /\ intervals (cleanup c) = [])
  /\ (isRecording c = true ->
        isRecording (stopRecording c) = false /\
        liveStreams (stopRecording c) = [] /\ intervals (stopRecording c) = [])
  /\ (isRecording c = false -> liveStreams c = [] /\ intervals c = []).
Proof.
  intros Hrun. pose proof (run_Inv _ _ _ initial_Inv Hrun) as HI. clear Hrun.
  split; [|split]; try intros Hr.
  all: destruct HI; flatten c; crunch; try discriminate.
  all: repeat match goal with
         | |- context [match ?x with Some _ => _ | None => _ end] =>
             destruct x; cbn
         end.
  all: crunch; auto.
Qed.

Lemma stop_and_teardown_release_witness :
  exists c, run [EvStart StartSucceeds; EvPause] initial = Some c /\
            lifecycle c = Paused /\ liveStreams c <> [] /\
            liveStreams (cleanup c) = [] /\ intervals (cleanup c) = [].
Proof.
  eexists. split; [reflexivity|].
  split; [reflexivity|]. split; [discriminate|].
  exact (proj1 (stop_and_teardown_release [EvStart StartSucceeds; EvPause] _ eq_refl)).
Defined.

(** ** Chunks and the result blob *)

Lemma concatBytes_app (xs ys : list Blob) :
  concatBytes (xs ++ ys) = concatBytes xs ++ concatBytes ys.
Proof. unfold concatBytes. rewrite map_app. apply concat_app. Qed.

Lemma size_zero_bytes (b : Blob) : nonEmpty b = false -> blobBytes b = [].
Proof.
  unfold nonEmpty, size. intros H. apply N.ltb_ge in H.
  destruct (blobBytes b); [reflexivity|]. simpl List.length in H. lia.
Qed.

Lemma concatBytes_filter (parts : list Blob) :
  concatBytes (filter nonEmpty parts) = concatBytes parts.
Proof.
  induction parts as [|b parts IH]; [reflexivity|].
  simpl. destruct (nonEmpty b) eqn:E.
  - unfold concatBytes in *. simpl. now rewrite IH.
  - unfold concatBytes in *. simpl. rewrite (size_zero_bytes b E). exact IH.
Qed.

Ltac break_match_hyp H :=
  repeat match type of H with
         | context [match ?x with _ => _ end] =>
             lazymatch x with
             | context [match _ with _ => _ end] => fail
             | _ => destruct x eqn:?; cbn in H
             end
         end.

Lemma secondTick_chunksRef (c : Component) :
  chunksRef (secondTick c) = chunksRef c.
Proof.
  unfold secondTick. generalize (intervals c) as ts. intros ts.
  revert c. induction ts as [|t ts IH]; intros c; [reflexivity|].
  simpl. rewrite IH. destruct c; reflexivity.
Qed.

(** Only [startRecording] and [ondataavailable] write the chunk buffer. *)
Lemma handle_chunksRef (e : Event) (c c' : Component) :
  handle e c = Some c' ->
  chunksRef c' = chunksRef c \/ chunksRef c' = [] \/
  exists data, 0 < size data /\ chunksRef c' = chunksRef c ++ [data].
Proof.
  intros Hh.
  destruct e as [[[]| | |]| | | |r' d|r'| |q];
    try (injection Hh as <-; left; apply secondTick_chunksRef);
    destruct c; crunch.
  all: try (break_match_hyp Hh; try discriminate; injection Hh as <-; cbn;
            repeat match goal with
                   | |- context [match ?x with Some _ => _ | None => _ end] =>
                       destruct x; cbn
                   end; auto; fail).
  destruct (0 <? size d) eqn:E; injection Hh as <-; cbn; auto.
  right; right. exists d. split; [now apply N.ltb_lt|reflexivity].
Qed.

Lemma exec_chunks_nonEmpty (es : list Event) (c c' : Component) :
  Forall (fun b => 0 < size b) (chunksRef c) -> exec es c = Some c' ->
  Forall (fun b => 0 < size b) (chunksRef c').
Proof.
  revert c. induction es as [|e es IH]; simpl; intros c HF H.
  - injection H as <-. exact HF.
  - destruct (handle e c) as [c1|] eqn:Hh; [|discriminate].
    apply (IH c1); [|exact H].
    destruct (handle_chunksRef e c c1 Hh) as [E|[E|[d [Hd E]]]]; rewrite E; auto.
    apply Forall_app. split; auto.
Qed.

Lemma deliveries_append (ds : list Blob) (c : Component) :
  chunksRef (fold_left (fun c d => ondataavailable d c) ds c) =
  chunksRef c ++ filter nonEmpty ds.
Proof.
  revert c. induction ds as [|d ds IH]; intros c; simpl.
  - now rewrite app_nil_r.
  - rewrite IH. unfold ondataavailable, nonEmpty.
    destruct (0 <? size d); [|reflexivity].
    destruct c; cbn. now rewrite <- app_assoc.
Qed.

(** C10. In every state that any sequence of events reaches, each chunk in
    [chunksRef] has positive size: [ondataavailable] drops a chunk of size 0
    without touching the component and appends every other chunk at the end,
    so a series of deliveries leaves the non-empty ones in arrival order; a
    blob built from the kept chunks has the bytes of the blob built from all
    of them. *)
Theorem empty_chunks_never_stored
  (es : list Event) (c : Component) (data : Blob) (ds parts : list Blob)
  (type : string) :
  exec es initial = Some c ->
  Forall (fun b => 0 < size b) (chunksRef c)
  /\ (size data = 0 -> ondataavailable data c = c)
  /\ (0 < size data ->
        ondataavailable data c = withChunksRef (chunksRef c ++ [data]) c)
  /\ chunksRef (fold_left (fun c d => ondataavailable d c) ds c) =
        chunksRef c ++ filter nonEmpty ds
  /\ newBlob (filter nonEmpty parts) type = newBlob parts type.
Proof.
  intros Hex. repeat split.
  - eapply exec_chunks_nonEmpty; [|exact Hex]. constructor.
  - intros Hz. unfold ondataavailable. now rewrite Hz.
  - intros Hp. unfold ondataavailable. apply N.ltb_lt in Hp. now rewrite Hp.
  - apply deliveries_append.
  - unfold newBlob. now rewrite concatBytes_filter.
Qed.

Lemma empty_chunks_never_stored_witness :
  exists c,
    exec [EvStart StartSucceeds; EvData 1%nat noBytes; EvData 1%nat twoBytes] initial
      = Some c /\
    chunksRef c = [twoBytes] /\
    Forall (fun b => 0 < size b) (chunksRef c).
Proof.
  eexists. split; [reflexivity|]. split; [reflexivity|].
  exact (proj1 (empty_chunks_never_stored
                  [EvStart StartSucceeds; EvData 1%nat noBytes; EvData 1%nat twoBytes]
                  _ noBytes [] [] "audio/wav" eq_refl)).
Defined.

(** *** One recording, from [start()] to the recorder's [stop] event *)

(** While a recording is open (the component is not at rest), a valid
    transition other than the recorder's [stop] event keeps it open, leaves
    [audioBlob] alone and appends to [chunksRef] exactly the non-empty chunk
    it delivers; no chunk arrives while the recording is paused. *)
Lemma session_step (e : Event) (c c' : Component) :
  Inv c -> quiescent c = false -> isRecorderStop e = false ->
  allowed e c = true -> handle e c = Some c' ->
  quiescent c' = false
  /\ audioBlob c' = audioBlob c
  /\ isPaused c' = pausedAfter (isPaused c) e
  /\ chunksRef c' = chunksRef c ++ filter nonEmpty (chunkOf (isPaused c) e)
  /\ chunkOf (isPaused c) e = delivered [e]
  /\ (e = EvStop \/ isRecording c' = isRecording c).
Proof.
  intros HI Hq Hn Ha Hh.
  destruct HI; destruct e as [[[]| | |]| | | |r' d|r'| |q]; try discriminate;
    flatten c; crunch; try discriminate; try congruence.
  all: try (injection Hh as <-; cbn; rewrite ?app_nil_r; auto 10; fail).
  all: try match goal with
       | H : forallb _ ?rs = true |- _ =>
           let Hs := fresh in let Hq := fresh in
           destruct (lookup_rest_idle r' rs H) as [Hs Hq];
           rewrite ?Hs, ?Hq in *; discriminate
       end.
  all: match goal with
       | H : allIdle ?rest = true |- _ =>
           destruct (Nat.eqb r' r) eqn:E; cbn in *; try discriminate;
           try (let Hs := fresh in let Hq := fresh in
                destruct (lookup_rest_idle r' rest H) as [Hs Hq];
                rewrite ?Hs, ?Hq in *; discriminate)
       end.
  all: unfold nonEmpty; destruct (0 <? size d); injection Hh as <-; cbn;
    rewrite ?app_nil_r; auto 10.
Qed.

Lemma session_run (body : list Event) (c c' : Component) :
  Inv c -> quiescent c = false ->
  forallb (fun e => negb (isRecorderStop e)) body = true ->
  run body c = Some c' ->
  Inv c' /\ quiescent c' = false
  /\ audioBlob c' = audioBlob c
  /\ chunksRef c' = chunksRef c ++ filter nonEmpty (recordedChunks (isPaused c) body)
  /\ recordedChunks (isPaused c) body = delivered body
  /\ (isRecording c = true -> isRecording c' = false -> In EvStop body).
Proof.
  revert c. induction body as [|e body IH]; intros c HI Hq Hb Hrun.
  - injection Hrun as <-. simpl. rewrite app_nil_r. repeat split; auto.
    intros H1 H2. congruence.
  - simpl in Hb. apply andb_true_iff in Hb as [He Hb].
    apply negb_true_iff in He.
    simpl in Hrun.
    destruct (allowed e c) eqn:Ha; [|discriminate].
    destruct (handle e c) as [c1|] eqn:Hh; [|discriminate].
    pose proof (step_Inv e c c1 HI Ha Hh) as HI1.
    destruct (session_step e c c1 HI Hq He Ha Hh)
      as (Hq1 & Hblob & Hp & Hch & Hdel & Hrec).
    destruct (IH c1 HI1 Hq1 Hb Hrun) as (HI' & Hq' & Hblob' & Hch' & Hdel' & Hrec').
    split; [exact HI'|]. split; [exact Hq'|].
    split; [congruence|].
    split; [|split].
    + simpl. rewrite Hch', Hch, Hp, filter_app, app_assoc. reflexivity.
    + simpl. rewrite <- Hp, Hdel', Hdel.
      destruct e; reflexivity.
    + intros H1 H2. destruct Hrec as [->|Hrec]; [now left|].
      right. apply Hrec'; congruence.
Qed.

Lemma start_opens_session (c : Component) :
  Inv c -> allowed (EvStart StartSucceeds) c = true ->
  let c1 := startRecording StartSucceeds c in
  Inv c1 /\ quiescent c1 = false /\ isRecording c1 = true /\ isPaused c1 = false
  /\ chunksRef c1 = [] /\ audioBlob c1 = audioBlob c.
Proof.
  intros HI Ha. pose proof (step_Inv _ _ _ HI Ha eq_refl) as HI1.
  split; [exact HI1|]. clear HI1.
  destruct HI; flatten c; crunch; try discriminate; auto 10.
Qed.

(** A recorder owes its [stop] event only after [stopRecording]. *)
Lemma stop_owed_not_recording (r : Handle) (c : Component) :
  Inv c -> stopQueued (getRecorder r c) = true -> isRecording c = false.
Proof.
  intros HI Hs. destruct HI; auto; exfalso; unfold getRecorder in Hs;
    match goal with H : recorders c = _ |- _ => rewrite H in Hs end;
    simpl in Hs; destruct (Nat.eqb r r0); simpl in Hs; try discriminate;
    match goal with
    | H : allIdle ?rest = true |- _ =>
        destruct (lookup_rest_idle r rest H) as [_ Hx]; congruence
    end.
Qed.

Lemma onstop_blob (c : Component) :
  audioBlob (onstop c) = Some (newBlob (chunksRef c) "audio/wav").
Proof. destruct c; reflexivity. Qed.

Lemma onstop_isRecording (c : Component) :
  isRecording (onstop c) = isRecording c.
Proof. destruct c; reflexivity. Qed.

Lemma putRecorder_chunksRef (r : Handle) (x : Recorder) (c : Component) :
  chunksRef (putRecorder r x c) = chunksRef c.
Proof. destruct c; reflexivity. Qed.

Lemma putRecorder_isRecording (r : Handle) (x : Recorder) (c : Component) :
  isRecording (putRecorder r x c) = isRecording c.
Proof. destruct c; reflexivity. Qed.

(** C3. Take any reachable state, a successful [start()], any valid
    transitions that follow up to, and not including, the first [stop] event
    of a recorder, and that event. Then [audioBlob] is written by that last
    event and by no transition before it, a [stop()] call lies in between,
    the component ends Stopped, and the blob's bytes are the concatenation, in
    arrival order, of the chunks that arrived between [start()]/[resume()]
    and the matching [pause()]/[stop()]; these are all the chunks that the
    recorder delivered. *)
Theorem result_blob_is_recorded_chunks
  (es0 body : list Event) (r : Handle) (c0 c : Component) :
  run es0 initial = Some c0 ->
  forallb (fun e => negb (isRecorderStop e)) body = true ->
  run (EvStart StartSucceeds :: body ++ [EvRecorderStop r]) c0 = Some c ->
  audioBlob c = Some (mkBlob (concatBytes (recordedChunks false body)) "audio/wav")
  /\ recordedChunks false body = delivered body
  /\ In EvStop body
  /\ lifecycle c = Stopped
  /\ (forall pre post, body = pre ++ post ->
        exists c1, run (EvStart StartSucceeds :: pre) c0 = Some c1 /\
                   audioBlob c1 = audioBlob c0).
Proof.
  intros H0 Hb Hrun.
  pose proof (run_Inv _ _ _ initial_Inv H0) as HI0. clear H0.
  change (EvStart StartSucceeds :: body ++ [EvRecorderStop r])
    with ([EvStart StartSucceeds] ++ body ++ [EvRecorderStop r]) in Hrun.
  rewrite run_app in Hrun. cbn [run] in Hrun.
  destruct (allowed (EvStart StartSucceeds) c0) eqn:Ha; [|discriminate].
  cbn [handle] in Hrun.
  destruct (start_opens_session c0 HI0 Ha) as (HI1 & Hq1 & Hr1 & Hp1 & Hch1 & Hbl1).
  set (c1 := startRecording StartSucceeds c0) in *.
  rewrite run_app in Hrun.
  destruct (run body c1) as [c2|] eqn:Hbody; [|discriminate].
  destruct (session_run body c1 c2 HI1 Hq1 Hb Hbody)
    as (HI2 & Hq2 & Hbl2 & Hch2 & Hdel & Hstop).
  rewrite Hp1 in *. rewrite Hch1 in Hch2. simpl in Hch2.
  cbn [run allowed handle] in Hrun.
  destruct (stopQueued (getRecorder r c2)) eqn:Hsq; [|discriminate].
  injection Hrun as <-.
  pose proof (stop_owed_not_recording r c2 HI2 Hsq) as Hrec2.
  split; [|split; [exact Hdel|split; [auto|split]]].
  - rewrite onstop_blob, putRecorder_chunksRef, Hch2. unfold newBlob.
    now rewrite concatBytes_filter.
  - unfold lifecycle, hasBlob.
    rewrite onstop_isRecording, putRecorder_isRecording, Hrec2, onstop_blob.
    reflexivity.
  - intros pre post ->.
    rewrite run_app in Hbody.
    destruct (run pre c1) as [c3|] eqn:Hpre; [|discriminate].
    rewrite forallb_app in Hb. apply andb_true_iff in Hb as [Hb1 _].
    destruct (session_run pre c1 c3 HI1 Hq1 Hb1 Hpre) as (_ & _ & Hbl3 & _).
    exists c3. split.
    + cbn [run]. rewrite Ha. cbn [handle]. exact Hpre.
    + congruence.
Qed.

Lemma result_blob_is_recorded_chunks_witness :
  exists c,
    run (EvStart StartSucceeds :: sessionBody ++ [EvRecorderStop 1%nat]) initial
      = Some c /\
    audioBlob c =
      Some (mkBlob [Byte.x52; Byte.x49; Byte.x52; Byte.x49] "audio/wav").
Proof.
  eexists. split; [reflexivity|].
  exact (proj1 (result_blob_is_recorded_chunks [] sessionBody 1%nat initial _
                  eq_refl eq_refl eq_refl)).
Defined.

(** ** Failure of [start()] *)

(** When [getUserMedia] rejects, from any not-recording state
    that valid transitions reach, [startRecording] changes nothing but the
    notifications: the five state variables, the four refs and the host's
    streams, recorders, timers and timeouts are as before, so the component
    is still not recording, with no running timer and no live stream, and
    exactly one toast, a destructive one, is added. On a freshly mounted
    component this leaves no stream, no recorder and no chunk stored. *)
Theorem acquisition_failure_commits_nothing
  (err : AcquireError) (es : list Event) (c : Component) :
  run es initial = Some c -> isRecording c = false ->
  let c' := startRecording (AcquireFails err) c in
  (isRecording c' = false /\ isPaused c' = isPaused c /\
   recordingTime c' = recordingTime c /\ transcription c' = transcription c /\
   audioBlob c' = audioBlob c)
  /\ (mediaRecorderRef c' = mediaRecorderRef c /\ streamRef c' = streamRef c /\
      chunksRef c' = chunksRef c /\ timerRef c' = None)
  /\ (nextHandle c' = nextHandle c /\ liveStreams c' = [] /\
      recorders c' = recorders c /\ intervals c' = [] /\
      timeouts c' = timeouts c)
  /\ (exists t, toasts c' = toasts c ++ [t] /\ variant t = Destructive)
  /\ (let f := startRecording (AcquireFails err) initial in
      streamRef f = None /\ mediaRecorderRef f = None /\ chunksRef f = []).
Proof.
  intros Hrun Hr c'. subst c'.
  pose proof (run_Inv _ _ _ initial_Inv Hrun) as HI. clear Hrun.
  destruct HI; flatten c; try discriminate; cbn; repeat split; auto;
    eexists; split; reflexivity.
Qed.

Lemma acquisition_failure_commits_nothing_witness :
  let c' := startRecording (AcquireFails DeviceUnavailable) initial in
  isRecording c' = false /\ List.length (toasts c') = 1%nat /\ chunksRef c' = [].
Proof.
  pose proof (acquisition_failure_commits_nothing DeviceUnavailable [] initial
                eq_refl eq_refl) as H.
  cbv zeta in *. destruct H as ((H1 & _) & (_ & _ & H2 & _) & _).
  split; [exact H1|]. split; [reflexivity|exact H2].
Defined.

(** ** [reset()] *)

(** C5, as stated, fails on the chunk buffer: after a recording that
    delivered a chunk, [resetRecording] leaves the chunk in [chunksRef]. *)
Lemma reset_counterexample :
  exists c, run oneRecording initial = Some c /\ lifecycle c = Stopped /\
            chunksRef (resetRecording c) <> [].
Proof.
  eexists. split; [reflexivity|]. split; [reflexivity|]. discriminate.
Qed.

(** C5, amended. From every not-recording state that valid transitions
    reach (Idle or Stopped), [resetRecording] sets the elapsed time to 0, the
    transcript to the empty string and the result blob to absent, leaves the
    component Idle with no timer and no live stream, and does not touch the
    chunk buffer; the buffer is emptied by the next successful [start()]. *)
Theorem reset_restores_idle_defaults (es : list Event) (c : Component) :
  run es initial = Some c -> isRecording c = false ->
  let c' := resetRecording c in
  recordingTime c' = 0 /\ transcription c' = "" /\ audioBlob c' = None
  /\ isRecording c' = false /\ isPaused c' = false /\ lifecycle c' = Idle
  /\ timerRef c' = None /\ intervals c' = [] /\ liveStreams c' = []
  /\ chunksRef c' = chunksRef c
  /\ chunksRef (startRecording StartSucceeds c') = [].
Proof.
  intros Hrun Hr c'. subst c'.
  pose proof (run_Inv _ _ _ initial_Inv Hrun) as HI. clear Hrun.
  destruct HI; flatten c; try discriminate; cbn; repeat split; auto.
Qed.

Lemma reset_restores_idle_defaults_witness :
  exists c, run oneRecording initial = Some c /\
            recordingTime (resetRecording c) = 0 /\
            audioBlob (resetRecording c) = None /\
            chunksRef (resetRecording c) = [twoBytes].
Proof.
  eexists. split; [reflexivity|].
  pose proof (reset_restores_idle_defaults oneRecording _ eq_refl eq_refl) as H.
  cbv zeta in H. destruct H as (H1 & _ & H3 & _ & _ & _ & _ & _ & _ & H10 & _).
  split; [exact H1|]. split; [exact H3|]. exact H10.
Defined.

(** ** Operations called where the lifecycle does not allow them *)





(** ** Decimal numerals, padding and [formatTime] *)

Section Formatting.
Local Open Scope string_scope.

Lemma append_assoc (a b c : string) : (a ++ b) ++ c = a ++ (b ++ c).
Proof. induction a as [|x a IH]; simpl; [reflexivity|now rewrite IH]. Qed.

Lemma append_nil_r (a : string) : a ++ "" = a.
Proof. induction a as [|x a IH]; simpl; [reflexivity|now rewrite IH]. Qed.

Lemma length_append (a b : string) :
  String.length (a ++ b) = (String.length a + String.length b)%nat.
Proof. induction a as [|x a IH]; simpl; [reflexivity|now rewrite IH]. Qed.

Lemma allDigits_append (a b : string) :
  allDigits (a ++ b) = allDigits a && allDigits b.
Proof.
  induction a as [|x a IH]; simpl; [reflexivity|].
  now rewrite IH, andb_assoc.
Qed.

Lemma numeralFrom_append (a b : string) (acc : N) :
  numeralFrom acc (a ++ b) = numeralFrom (numeralFrom acc a) b.
Proof. revert acc. induction a as [|x a IH]; simpl; intros acc; auto. Qed.

Lemma digitChar_code (d : N) : (d < 10)%N -> N_of_ascii (digitChar d) = (48 + d)%N.
Proof. intros H. unfold digitChar. apply N_ascii_embedding. lia. Qed.

Lemma digitChar_isDigit (d : N) : (d < 10)%N -> isDigit (digitChar d) = true.
Proof.
  intros H. unfold isDigit. rewrite (digitChar_code d H).
  apply andb_true_iff. split; apply N.leb_le; lia.
Qed.

Lemma digitChar_value (d : N) : (d < 10)%N -> digitValue (digitChar d) = d.
Proof. intros H. unfold digitValue. rewrite (digitChar_code d H). lia. Qed.

Lemma toString_step (n : N) :
  toString n =
  if (n <? 10)%N then String (digitChar n) EmptyString
  else toString (n / 10) ++ String (digitChar (n mod 10)) EmptyString.
Proof. funelim (toString n); now rewrite e. Qed.

Lemma mod10_lt (n : N) : (n mod 10 < 10)%N.
Proof. apply N.mod_lt. discriminate. Qed.

Lemma toString_allDigits (n : N) : allDigits (toString n) = true.
Proof.
  induction n as [n IH] using (well_founded_induction N.lt_wf_0).
  rewrite toString_step. destruct (n <? 10)%N eqn:E.
  - apply N.ltb_lt in E. simpl. now rewrite digitChar_isDigit.
  - apply N.ltb_ge in E. rewrite allDigits_append, IH.
    + simpl. now rewrite digitChar_isDigit by apply mod10_lt.
    + apply N.div_lt; lia.
Qed.

Lemma numeral_toString (n : N) : numeral (toString n) = n.
Proof.
  unfold numeral.
  induction n as [n IH] using (well_founded_induction N.lt_wf_0).
  rewrite toString_step. destruct (n <? 10)%N eqn:E.
  - apply N.ltb_lt in E. cbn [numeralFrom]. rewrite digitChar_value by exact E. lia.
  - apply N.ltb_ge in E. rewrite numeralFrom_append, IH by (apply N.div_lt; lia).
    cbn [numeralFrom]. rewrite digitChar_value by apply mod10_lt.
    pose proof (N.div_mod n 10 ltac:(discriminate)). lia.
Qed.

Lemma toString_length_pos (n : N) : (1 <= String.length (toString n))%nat.
Proof.
  rewrite toString_step. destruct (n <? 10)%N; simpl; [lia|].
  rewrite length_append. simpl. lia.
Qed.

Lemma pow10_pos (k : nat) : (1 <= pow10 k)%N.
Proof. induction k as [|k IH]; cbn [pow10]; lia. Qed.

(** A number below [10^(k+1)] prints with at most [k+1] digits, and a number
    from [10^k] on with more than [k]. *)
Lemma toString_length_le (k : nat) (n : N) :
  (n < pow10 (S k))%N -> (String.length (toString n) <= S k)%nat.
Proof.
  revert n. induction k as [|k IH]; intros n H; rewrite toString_step.
  - simpl in H. assert (E : (n <? 10)%N = true) by (apply N.ltb_lt; lia).
    rewrite E. simpl. lia.
  - destruct (n <? 10)%N eqn:E; [simpl; lia|].
    rewrite length_append. simpl.
    assert ((n / 10 < pow10 (S k))%N).
    { apply N.Div0.div_lt_upper_bound. exact H. }
    specialize (IH _ H0). lia.
Qed.

Lemma toString_length_gt (k : nat) (n : N) :
  (pow10 k <= n)%N -> (k < String.length (toString n))%nat.
Proof.
  revert n. induction k as [|k IH]; intros n H.
  - pose proof (toString_length_pos n). lia.
  - rewrite toString_step.
    assert (E : (n <? 10)%N = false).
    { apply N.ltb_ge. cbn [pow10] in H. pose proof (pow10_pos k). lia. }
    rewrite E, length_append. simpl.
    assert ((pow10 k <= n / 10)%N).
    { apply N.div_le_lower_bound; [discriminate|]. exact H. }
    specialize (IH _ H0). lia.
Qed.

Lemma fillFrom_zero (k : nat) :
  fillFrom k "0" "0" = zeros k /\ fillFrom k "" "0" = zeros k.
Proof.
  induction k as [|k [IH1 IH2]]; simpl; [auto|].
  rewrite IH2. auto.
Qed.

Lemma padStart_zero (w : nat) (s : string) :
  padStart w "0" s = zeros (w - String.length s) ++ s.
Proof.
  unfold padStart. destruct (w <=? String.length s)%nat eqn:E.
  - apply Nat.leb_le in E. replace (w - String.length s)%nat with O by lia.
    reflexivity.
  - now rewrite (proj1 (fillFrom_zero _)).
Qed.

Lemma zeros_length (k : nat) : String.length (zeros k) = k.
Proof. induction k; simpl; auto. Qed.

Lemma zeros_allDigits (k : nat) : allDigits (zeros k) = true.
Proof. induction k; simpl; auto. Qed.

Lemma zeros_numeral (k : nat) : numeralFrom 0 (zeros k) = 0%N.
Proof. induction k; simpl; auto. Qed.

Lemma pad_length (w : nat) (n : N) :
  String.length (pad w n) = Nat.max w (String.length (toString n)).
Proof.
  unfold pad. rewrite padStart_zero, length_append, zeros_length. lia.
Qed.

Lemma pad_allDigits (w : nat) (n : N) : allDigits (pad w n) = true.
Proof.
  unfold pad. rewrite padStart_zero, allDigits_append, zeros_allDigits.
  apply toString_allDigits.
Qed.

Lemma pad_numeral (w : nat) (n : N) : numeral (pad w n) = n.
Proof.
  unfold pad, numeral. rewrite padStart_zero, numeralFrom_append, zeros_numeral.
  apply numeral_toString.
Qed.

Lemma pad_length_small (k : nat) (n : N) :
  (n < pow10 (S k))%N -> String.length (pad (S k) n) = S k.
Proof.
  intros H. rewrite pad_length. pose proof (toString_length_le k n H). lia.
Qed.

(** C6. For every non-negative whole number of seconds that a JavaScript
    number holds exactly (up to [maxSafeInteger]), [formatTime] prints
    the minutes, a colon and the seconds: both fields are decimal digits, the
    seconds field has exactly two of them and denotes [seconds mod 60], the
    minutes field denotes [seconds / 60] in full, with two digits below 100
    minutes and as many as the number needs from there on, so nothing rolls
    over into hours. 0, 59, 60 and 3661 print as 00:00, 00:59, 01:00 and
    61:01. *)
Theorem formatTime_minutes_seconds (seconds : N) :
  (seconds <= maxSafeInteger)%N ->
  let mm := pad 2 (seconds / 60) in
  let ss := pad 2 (seconds mod 60) in
  formatTime seconds = mm ++ ":" ++ ss
  /\ allDigits mm = true /\ allDigits ss = true
  /\ numeral mm = (seconds / 60)%N /\ numeral ss = (seconds mod 60)%N
  /\ String.length ss = 2%nat
  /\ String.length mm = Nat.max 2 (String.length (toString (seconds / 60)))
  /\ (seconds / 60 <? 100)%N = (String.length mm =? 2)%nat
  /\ formatTime 0 = "00:00" /\ formatTime 59 = "00:59"
  /\ formatTime 60 = "01:00" /\ formatTime 3661 = "61:01".
Proof.
  intros _ mm ss. subst mm ss.
  split; [reflexivity|].
  split; [apply pad_allDigits|]. split; [apply pad_allDigits|].
  split; [apply pad_numeral|]. split; [apply pad_numeral|].
  split.
  { apply (pad_length_small 1). simpl.
    pose proof (N.mod_lt seconds 60 ltac:(discriminate)). lia. }
  split; [apply pad_length|].
  split.
  { rewrite pad_length. destruct (seconds / 60 <? 100)%N eqn:E.
    - apply N.ltb_lt in E.
      pose proof (toString_length_le 1 (seconds / 60) ltac:(simpl; lia)).
      symmetry. apply Nat.eqb_eq. lia.
    - apply N.ltb_ge in E.
      pose proof (toString_length_gt 2 (seconds / 60) ltac:(simpl; lia)).
      symmetry. apply Nat.eqb_neq. lia. }
  repeat split; reflexivity.
Qed.

Lemma formatTime_minutes_seconds_witness :
  formatTime 3661 = "61:01" /\ numeral (pad 2 (3661 / 60)) = 61%N.
Proof.
  pose proof (formatTime_minutes_seconds 3661 ltac:(vm_compute; discriminate))
    as H.
  cbv zeta in H. destruct H as (_ & _ & _ & Hm & _ & _ & _ & _ & _ & _ & _ & He).
  split; [exact He|exact Hm].
Defined.

(** ** The name of the downloaded file *)

Lemma isDigit_not_colon (a : ascii) : isDigit a = true -> Ascii.eqb a ":" = false.
Proof.
  intros H. destruct (Ascii.eqb a ":") eqn:E; [|reflexivity].
  apply Ascii.eqb_eq in E. subst a. discriminate.
Qed.

Lemma replaceColons_append (a b : string) :
  replaceColons (a ++ b) = replaceColons a ++ replaceColons b.
Proof. induction a as [|x a IH]; simpl; [reflexivity|now rewrite IH]. Qed.

Lemma replaceColons_digits (s : string) :
  allDigits s = true -> replaceColons s = s.
Proof.
  induction s as [|a s IH]; simpl; intros H; [reflexivity|].
  apply andb_true_iff in H as [Ha Hs].
  now rewrite (isDigit_not_colon a Ha), IH.
Qed.

Lemma noColon_append (a b : string) : noColon (a ++ b) = noColon a && noColon b.
Proof.
  induction a as [|x a IH]; simpl; [reflexivity|].
  now rewrite IH, andb_assoc.
Qed.

Lemma noColon_digits (s : string) : allDigits s = true -> noColon s = true.
Proof.
  induction s as [|a s IH]; simpl; intros H; [reflexivity|].
  apply andb_true_iff in H as [Ha Hs].
  now rewrite (isDigit_not_colon a Ha), IH.
Qed.

Lemma slice0_append (a b : string) (n : nat) :
  (String.length a <= n)%nat ->
  slice0 n (a ++ b) = a ++ slice0 (n - String.length a) b.
Proof.
  unfold slice0. revert n. induction a as [|x a IH]; simpl; intros n H.
  - now rewrite Nat.sub_0_r.
  - destruct n as [|n]; [lia|]. simpl. rewrite IH by lia. reflexivity.
Qed.

Lemma slice0_cons (x : ascii) (s : string) (n : nat) :
  slice0 (S n) (String x s) = String x (slice0 n s).
Proof. reflexivity. Qed.

Lemma slice0_zero (s : string) : slice0 0 s = "".
Proof. destruct s; reflexivity. Qed.

Lemma prefix_append (a b : string) : prefix a (a ++ b) = true.
Proof.
  apply prefix_correct. change (substring 0) with slice0.
  rewrite slice0_append by lia.
  now rewrite Nat.sub_diag, slice0_zero, append_nil_r.
Qed.

(** The first 19 characters of an ISO timestamp with a four-digit year are
    the date and the time down to the seconds. *)
Lemma slice0_timestamp (Y M D h m s rest : string) :
  String.length Y = 4%nat -> String.length M = 2%nat -> String.length D = 2%nat ->
  String.length h = 2%nat -> String.length m = 2%nat -> String.length s = 2%nat ->
  slice0 19 (Y ++ "-" ++ M ++ "-" ++ D ++ "T" ++ h ++ ":" ++ m ++ ":" ++ s ++ rest)
  = Y ++ "-" ++ M ++ "-" ++ D ++ "T" ++ h ++ ":" ++ m ++ ":" ++ s.
Proof.
  intros HY HM HD Hh Hm Hs.
  rewrite slice0_append by lia. rewrite HY. f_equal.
  cbn [append Nat.sub]. rewrite slice0_cons. f_equal.
  rewrite slice0_append by lia. rewrite HM. f_equal.
  cbn [append Nat.sub]. rewrite slice0_cons. f_equal.
  rewrite slice0_append by lia. rewrite HD. f_equal.
  cbn [append Nat.sub]. rewrite slice0_cons. f_equal.
  rewrite slice0_append by lia. rewrite Hh. f_equal.
  cbn [append Nat.sub]. rewrite slice0_cons. f_equal.
  rewrite slice0_append by lia. rewrite Hm. f_equal.
  cbn [append Nat.sub]. rewrite slice0_cons. f_equal.
  rewrite slice0_append by lia. rewrite Hs.
  cbn [Nat.sub]. rewrite slice0_zero. now rewrite append_nil_r.
Qed.

(** C8, as stated, fails: the name starts with "gravacao-", and the
    timestamp is cut after the seconds, so it is not the whole ISO string. *)
Lemma download_name_counterexample :
  exists c name blob,
    run oneRecording initial = Some c /\
    downloadAudio (mkDate 2024 1 2 3 4 5 6) c = Some (name, blob) /\
    prefix "recording-" name = false /\
    name <> "recording-" ++ replaceColons (toISOString (mkDate 2024 1 2 3 4 5 6))
              ++ ".wav" /\
    name <> "gravacao-" ++ replaceColons (toISOString (mkDate 2024 1 2 3 4 5 6))
              ++ ".wav".
Proof.
  do 3 eexists. split; [reflexivity|]. split; [reflexivity|].
  split; [reflexivity|]. split; intros H; vm_compute in H; discriminate.
Qed.

(** C8, amended. When a result blob exists, [downloadAudio] offers that blob
    under the name "gravacao-" followed by the first 19 characters of the
    ISO-8601 timestamp (date and time to the second, without milliseconds
    and zone) with each colon replaced by a hyphen, followed by ".wav". *)
Theorem download_name_shape (now : Date) (c : Component) (blob : Blob) :
  validDate now = true -> audioBlob c = Some blob ->
  let date := pad 4 (isoYear now) ++ "-" ++ pad 2 (isoMonth now) ++ "-"
                ++ pad 2 (isoDay now) in
  let hh := pad 2 (isoHours now) in
  let mm := pad 2 (isoMinutes now) in
  let ss := pad 2 (isoSeconds now) in
  let name := "gravacao-" ++ date ++ "T" ++ hh ++ "-" ++ mm ++ "-" ++ ss ++ ".wav" in
  downloadAudio now c = Some (name, blob)
  /\ toISOString now =
       date ++ "T" ++ hh ++ ":" ++ mm ++ ":" ++ ss ++ "."
         ++ pad 3 (isoMilliseconds now) ++ "Z"
  /\ prefix "gravacao-" name = true
  /\ noColon name = true
  /\ String.length name = 32%nat.
Proof.
  intros Hv Hb date hh mm ss name.
  unfold validDate in Hv.
  repeat (apply andb_true_iff in Hv; destruct Hv as [Hv ?]).
  repeat match goal with
         | H : (_ <=? _)%N = true |- _ => apply N.leb_le in H
         | H : (_ <? _)%N = true |- _ => apply N.ltb_lt in H
         end.
  assert (LY : String.length (pad 4 (isoYear now)) = 4%nat)
    by (apply (pad_length_small 3); simpl; lia).
  assert (LM : String.length (pad 2 (isoMonth now)) = 2%nat)
    by (apply (pad_length_small 1); simpl; lia).
  assert (LD : String.length (pad 2 (isoDay now)) = 2%nat)
    by (apply (pad_length_small 1); simpl; lia).
  assert (Lh : String.length hh = 2%nat)
    by (apply (pad_length_small 1); simpl; lia).
  assert (Lm : String.length mm = 2%nat)
    by (apply (pad_length_small 1); simpl; lia).
  assert (Ls : String.length ss = 2%nat)
    by (apply (pad_length_small 1); simpl; lia).
  assert (Hiso : toISOString now =
                 date ++ "T" ++ hh ++ ":" ++ mm ++ ":" ++ ss ++ "."
                   ++ pad 3 (isoMilliseconds now) ++ "Z").
  { unfold toISOString. apply N.leb_le in Hv. rewrite Hv.
    subst date hh mm ss. now rewrite !append_assoc. }
  split.
  - unfold downloadAudio, downloadName. rewrite Hb. do 2 f_equal.
    unfold toISOString. apply N.leb_le in Hv. rewrite Hv.
    rewrite (slice0_timestamp _ _ _ _ _ _ _ LY LM LD Lh Lm Ls).
    subst name date hh mm ss.
    rewrite !replaceColons_append.
    cbn [replaceColons Ascii.eqb Bool.eqb].
    rewrite !replaceColons_digits by apply pad_allDigits.
    now rewrite !append_assoc.
  - split; [exact Hiso|]. split; [apply prefix_append|]. split.
    + subst name date hh mm ss. rewrite !noColon_append.
      cbn [noColon Ascii.eqb Bool.eqb negb andb].
      rewrite !noColon_digits by apply pad_allDigits. reflexivity.
    + subst name date. rewrite !length_append.
      fold hh mm ss. rewrite LY, LM, LD, Lh, Lm, Ls. reflexivity.
Qed.

Lemma download_name_shape_witness :
  let now := mkDate 2024 1 2 3 4 5 6 in
  let c := setAudioBlob (Some twoBytes) initial in
  validDate now = true /\ audioBlob c = Some twoBytes /\
  downloadAudio now c = Some ("gravacao-2024-01-02T03-04-05.wav", twoBytes).
Proof.
  split; [reflexivity|]. split; [reflexivity|].
  exact (proj1 (download_name_shape (mkDate 2024 1 2 3 4 5 6)
                  (setAudioBlob (Some twoBytes) initial) twoBytes
                  eq_refl eq_refl)).
Defined.

End Formatting.

(** ** The placeholder transcription *)

(** [Math.floor(product) = i] exactly when the product lies in [[i, i+1)]. *)
Lemma randomIndex_floor (product : Q) (i : Z) :
  randomIndex product = i <->
  (inject_Z i <= product /\ product < inject_Z (i + 1))%Q.
Proof.
  unfold randomIndex. split.
  - intros <-. split; [apply Qfloor_le|apply Qlt_floor].
  - intros [Hlo Hhi].
    assert (H1 : (i <= Qfloor product)%Z).
    { rewrite <- (Qfloor_Z i). now apply Qfloor_resp_le. }
    assert (H2 : (Qfloor product < i + 1)%Z).
    { rewrite Zlt_Qlt. eapply Qle_lt_trans; [apply Qfloor_le|exact Hhi]. }
    lia.
Qed.

Lemma randomIndex_range (product : Q) :
  (0 <= product)%Q -> (product < 3)%Q ->
  (0 <= randomIndex product < 3)%Z.
Proof.
  intros H0 H1.
  destruct (proj1 (randomIndex_floor product (randomIndex product)) eq_refl)
    as [Hlo Hhi].
  split.
  - apply (Qfloor_resp_le 0 product H0).
  - rewrite Zlt_Qlt. eapply Qle_lt_trans; [exact Hlo|exact H1].
Qed.

Lemma transcription_pick (product : Q) (c : Component) :
  (0 <= product)%Q -> (product < 3)%Q ->
  exists s,
    nth_error sampleTranscriptions (Z.to_nat (randomIndex product)) = Some s
    /\ transcription (transcriptionCallback product c) = s
    /\ toasts (transcriptionCallback product c) = toasts c ++ [doneToast].
Proof.
  intros H0 H1. pose proof (randomIndex_range product H0 H1) as Hr.
  unfold transcriptionCallback, sampleAt.
  assert (E : randomIndex product = 0%Z \/ randomIndex product = 1%Z \/
              randomIndex product = 2%Z) by lia.
  destruct E as [E|[E|E]]; rewrite E; cbn;
    eexists; (split; [reflexivity|]); destruct c; split; reflexivity.
Qed.

Lemma random_allowed (product : Q) :
  (0 <= product)%Q -> (product < 3)%Q ->
  Qle_bool 0 product
  && negb (Qle_bool (inject_Z (Z.of_nat (List.length sampleTranscriptions)))
                    product) = true.
Proof.
  intros H0 H1. apply andb_true_iff. split.
  - now apply Qle_bool_iff.
  - change (inject_Z (Z.of_nat (List.length sampleTranscriptions))) with 3%Q.
    destruct (Qle_bool 3 product) eqn:E; [|reflexivity].
    apply Qle_bool_iff in E. exfalso. exact (Qle_not_lt _ _ E H1).
Qed.



(** * Further properties of the handlers *)

(** ** Exceptions *)

(** X1. In a state that valid transitions reach, every valid transition is
    handled without an uncaught exception: [recorder.pause()] and
    [recorder.resume()] are only called on a recorder that is active. Outside
    such states they can throw: after a second [startRecording] whose
    [recorder.start()] fails during a recording, [pauseRecording] raises. *)
Theorem valid_transitions_never_throw (es : list Event) (c : Component) (e : Event) :
  run es initial = Some c -> allowed e c = true ->
  (exists c', handle e c = Some c')
  /\ pauseRecording
       (startRecording RecorderStartFails (startRecording StartSucceeds initial))
     = None.
Proof.
  intros Hrun Ha. split; [|reflexivity].
  apply step_total; [|exact Ha]. exact (run_Inv _ _ _ initial_Inv Hrun).
Qed.

Lemma valid_transitions_never_throw_witness :
  exists c,
    run [EvStart StartSucceeds; EvPause] initial = Some c /\
    exists c', handle EvPause c = Some c'.
Proof.
  eexists. split; [reflexivity|].
  exact (proj1 (valid_transitions_never_throw
                  [EvStart StartSucceeds; EvPause] _ EvPause eq_refl eq_refl)).
Defined.

(** ** The media type of the result *)

Lemma secondTick_audioBlob (c : Component) :
  audioBlob (secondTick c) = audioBlob c.
Proof.
  unfold secondTick. generalize (intervals c) as ts. intros ts.
  revert c. induction ts as [|t ts IH]; intros c; [reflexivity|].
  simpl. rewrite IH. destruct c; reflexivity.
Qed.

(** Only [onstop] and [resetRecording] write the result blob. *)
Lemma handle_audioBlob (e : Event) (c c' : Component) :
  handle e c = Some c' ->
  audioBlob c' = audioBlob c \/ audioBlob c' = None \/
  exists parts, audioBlob c' = Some (newBlob parts "audio/wav").
Proof.
  intros Hh.
  destruct e as [[[]| | |]| | | |r' d|r'| |q];
    try (injection Hh as <-; left; apply secondTick_audioBlob);
    destruct c; crunch.
  all: try (break_match_hyp Hh; try discriminate; injection Hh as <-; cbn;
            repeat match goal with
                   | |- context [match ?x with Some _ => _ | None => _ end] =>
                       destruct x; cbn
                   end; eauto; fail).
Qed.

(** X4. Whatever the events and whatever media type the recorder gives its
    chunks, a result blob held by the component is declared as audio/wav. *)
Theorem result_blob_type_is_wav (es : list Event) (c : Component) (b : Blob) :
  exec es initial = Some c -> audioBlob c = Some b -> blobType b = "audio/wav".
Proof.
  assert (G : forall es c0 c,
             (forall b, audioBlob c0 = Some b -> blobType b = "audio/wav") ->
             exec es c0 = Some c ->
             forall b, audioBlob c = Some b -> blobType b = "audio/wav").
  { clear. induction es as [|e es IH]; simpl; intros c0 c H0 Hex.
    - injection Hex as <-. exact H0.
    - destruct (handle e c0) as [c1|] eqn:Hh; [|discriminate].
      apply (IH c1 c); [|exact Hex].
      intros b Hb.
      destruct (handle_audioBlob e c0 c1 Hh) as [E|[E|[parts E]]];
        rewrite E in Hb.
      + now apply H0.
      + discriminate.
      + injection Hb as <-. reflexivity. }
  intros Hex Hb. eapply (G es initial c); eauto.
  intros b0 H. discriminate.
Qed.

Lemma result_blob_type_is_wav_witness :
  exists c b,
    exec oneRecording initial = Some c /\ audioBlob c = Some b /\
    blobType twoBytes = "audio/webm" /\ blobBytes b = blobBytes twoBytes /\
    blobType b = "audio/wav".
Proof.
  eexists. eexists. split; [reflexivity|]. split; [reflexivity|].
  split; [reflexivity|]. split; [reflexivity|].
  exact (result_blob_type_is_wav oneRecording _ _ eq_refl eq_refl).
Defined.

(** ** Pause and resume *)

(** X5. From a Recording state that valid transitions reach, pausing and
    then resuming returns to Recording with the elapsed time, the chunks, the
    recorder and the stream as they were and one interval set again; while
    paused a tick counts nothing; each of the two steps shows one toast. *)
Theorem pause_resume_round_trip (es : list Event) (c : Component) :
  run es initial = Some c -> lifecycle c = Recording ->
  exists c1 c2,
    pauseRecording c = Some c1 /\ lifecycle c1 = Paused
    /\ recordingTime (secondTick c1) = recordingTime c1
    /\ pauseRecording c1 = Some c2 /\ lifecycle c2 = Recording
    /\ recordingTime c2 = recordingTime c /\ chunksRef c2 = chunksRef c
    /\ mediaRecorderRef c2 = mediaRecorderRef c /\ streamRef c2 = streamRef c
    /\ liveStreams c2 = liveStreams c /\ recorders c2 = recorders c
    /\ List.length (intervals c2) = 1%nat
    /\ (exists t1 t2, toasts c2 = toasts c ++ [t1; t2]
                      /\ title t1 = "Gravação pausada"
                      /\ title t2 = "Gravação retomada").
Proof.
  intros Hrun Hl.
  pose proof (run_Inv _ _ _ initial_Inv Hrun) as HI. clear Hrun.
  unfold lifecycle in *.
  destruct HI; flatten c; try discriminate.
  - destruct (hasBlob _); discriminate.
  - destruct (hasBlob _); discriminate.
  - crunch. do 2 eexists. split; [reflexivity|]. cbn.
    rewrite ?Nat.eqb_refl. cbn.
    repeat (split; [reflexivity|]).
    do 2 eexists. rewrite <- app_assoc. cbn.
    split; [reflexivity|]. split; reflexivity.
Qed.

Lemma pause_resume_round_trip_witness :
  exists c c2,
    run [EvStart StartSucceeds; EvSecond] initial = Some c /\
    run [EvPause; EvSecond; EvPause] c = Some c2 /\
    recordingTime c2 = 1.
Proof.
  eexists. eexists. split; [reflexivity|]. split; [reflexivity|].
  destruct (pause_resume_round_trip [EvStart StartSucceeds; EvSecond] _
              eq_refl eq_refl) as (c1 & c2 & _).
  reflexivity.
Defined.

(** ** The counter over whole runs *)

Lemma counter_step (e : Event) (c c' : Component) :
  Inv c -> allowed e c = true -> handle e c = Some c' ->
  counterView c' = counterStep (counterView c) e.
Proof.
  intros HI Ha Hh. unfold counterView.
  destruct e as [[[]| | |]| | | |r' d|r'| |q];
    destruct HI; flatten c; crunch; try discriminate;
    try (destruct (0 <? size d)); injection Hh as <-; reflexivity.
Qed.

(** X6. Along every sequence of valid transitions from the mounted
    component, the recording flag, the pause flag and the elapsed time are
    those of the three-field lifecycle counter run over the same events: the
    elapsed time is the number of ticks that fell into Recording since the
    last [reset], and a new recording that is started without a reset goes on
    counting from the old value. *)
Theorem counter_follows_lifecycle (es : list Event) (c : Component) :
  run es initial = Some c ->
  counterView c = fold_left counterStep es (false, false, 0).
Proof.
  assert (G : forall es c0 c, Inv c0 -> run es c0 = Some c ->
                counterView c = fold_left counterStep es (counterView c0)).
  { clear. induction es as [|e es IH]; cbn [fold_left run]; intros c0 c HI H.
    - now injection H as <-.
    - destruct (allowed e c0) eqn:Ha; [|discriminate].
      destruct (handle e c0) as [c1|] eqn:Hh; [|discriminate].
      rewrite <- (counter_step e c0 c1 HI Ha Hh).
      apply IH; [|exact H]. eapply step_Inv; eauto. }
  intros H. exact (G es initial c initial_Inv H).
Qed.

Lemma counter_follows_lifecycle_witness :
  exists c,
    run ([EvStart StartSucceeds; EvSecond; EvSecond] ++ tl oneRecording
           ++ [EvStart StartSucceeds; EvSecond]) initial = Some c /\
    counterView c = (true, false, 3).
Proof.
  eexists. split; [reflexivity|].
  exact (counter_follows_lifecycle
           ([EvStart StartSucceeds; EvSecond; EvSecond] ++ tl oneRecording
              ++ [EvStart StartSucceeds; EvSecond]) _ eq_refl).
Defined.

(** ** Timers and streams that the refs no longer hold *)

Lemma secondTick_adds (c : Component) :
  secondTick c =
  setRecordingTime (recordingTime c + N.of_nat (List.length (intervals c))) c.
Proof.
  unfold secondTick. generalize (intervals c) as ts. intros ts.
  revert c. induction ts as [|t ts IH]; intros c.
  - destruct c; cbn. now rewrite N.add_0_r.
  - cbn [fold_left List.length]. rewrite IH. destruct c; cbn. f_equal. lia.
Qed.

Ltac in_hyps :=
  repeat match goal with
         | H : In _ (_ ++ _) |- _ => apply in_app_or in H; destruct H
         | H : In _ (filter _ _) |- _ => apply filter_In in H; destruct H as [H _]
         | H : In _ [_] |- _ => destruct H as [H|[]]; subst
         | H : In _ [] |- _ => destruct H
         | F : forall h, In h ?l -> _, H : In _ ?l |- _ => apply F in H
         end.

Lemma handle_handedOut (e : Event) (c c' : Component) :
  handedOut c -> handle e c = Some c' ->
  handedOut c' /\ (nextHandle c <= nextHandle c')%nat.
Proof.
  intros [Hi Hs] Hh.
  destruct e as [[[]| | |]| | | |r' d|r'| |q].
  11: { injection Hh as <-. rewrite secondTick_adds. destruct c; cbn in *.
       repeat split; auto. }
  all: destruct c; unfold handedOut; crunch.
  all: break_match_hyp Hh; try discriminate; injection Hh as <-; cbn.
  all: repeat split; try lia; intros ? ?; in_hyps; lia.
Qed.

Lemma exec_handedOut (es : list Event) (c c' : Component) :
  handedOut c -> exec es c = Some c' -> handedOut c'.
Proof.
  revert c. induction es as [|e es IH]; simpl; intros c H Hex.
  - now injection Hex as <-.
  - destruct (handle e c) as [c1|] eqn:Hh; [|discriminate].
    apply (IH c1); [|exact Hex]. exact (proj1 (handle_handedOut e c c1 H Hh)).
Qed.

Lemma initial_handedOut : handedOut initial.
Proof. split; intros h []. Qed.

Ltac keep_in :=
  repeat first
    [ assumption
    | apply in_or_app; left
    | apply filter_In; split;
      [|apply negb_true_iff, Nat.eqb_neq; congruence] ].

Ltac not_ref :=
  first [ assumption | discriminate
        | let H := fresh in intros H; injection H as H; lia ].

Lemma handle_strayTimer (t : Handle) (e : Event) (c c' : Component) :
  strayTimer t c -> handle e c = Some c' -> strayTimer t c'.
Proof.
  intros (Hin & Href & Hlt) Hh.
  destruct e as [[[]| | |]| | | |r' d|r'| |q].
  11: { injection Hh as <-. rewrite secondTick_adds. destruct c; cbn in *.
       repeat split; auto. }
  all: destruct c; unfold strayTimer; crunch.
  all: break_match_hyp Hh; try discriminate; injection Hh as <-; cbn.
  all: split; [keep_in|split; [not_ref|lia]].
Qed.

Lemma handle_strayStream (s : Handle) (e : Event) (c c' : Component) :
  strayStream s c -> handle e c = Some c' -> strayStream s c'.
Proof.
  intros (Hin & Href & Hlt) Hh.
  destruct e as [[[]| | |]| | | |r' d|r'| |q].
  11: { injection Hh as <-. rewrite secondTick_adds. destruct c; cbn in *.
       repeat split; auto. }
  all: destruct c; unfold strayStream; crunch.
  all: break_match_hyp Hh; try discriminate; injection Hh as <-; cbn.
  all: split; [keep_in|split; [not_ref|lia]].
Qed.

Lemma exec_strayTimer (t : Handle) (es : list Event) (c c' : Component) :
  strayTimer t c -> exec es c = Some c' -> strayTimer t c'.
Proof.
  revert c. induction es as [|e es IH]; simpl; intros c H Hex.
  - now injection Hex as <-.
  - destruct (handle e c) as [c1|] eqn:Hh; [|discriminate].
    apply (IH c1); [|exact Hex]. exact (handle_strayTimer t e c c1 H Hh).
Qed.

Lemma exec_strayStream (s : Handle) (es : list Event) (c c' : Component) :
  strayStream s c -> exec es c = Some c' -> strayStream s c'.
Proof.
  revert c. induction es as [|e es IH]; simpl; intros c H Hex.
  - now injection Hex as <-.
  - destruct (handle e c) as [c1|] eqn:Hh; [|discriminate].
    apply (IH c1); [|exact Hex]. exact (handle_strayStream s e c c1 H Hh).
Qed.

(** X3. The handlers clear only the interval that [timerRef] holds, and
    [startTimer] overwrites [timerRef] without clearing. So once an interval
    is set and [timerRef] holds another handle or none, no later event and
    not even the unmount cleanup clears it, and from then on every second
    adds at least 1 to the elapsed time whatever the lifecycle state is. *)
Theorem stray_timer_keeps_counting
  (es0 es : list Event) (c c' : Component) (t : Handle) :
  exec es0 initial = Some c ->
  In t (intervals c) -> timerRef c <> Some t ->
  exec es c = Some c' ->
  In t (intervals c') /\ In t (intervals (cleanup c'))
  /\ recordingTime c' + 1 <= recordingTime (secondTick c').
Proof.
  intros H0 Hin Href Hex.
  pose proof (exec_handedOut es0 initial c initial_handedOut H0) as [Hi _].
  assert (Hs : strayTimer t c) by (split; [|split]; auto).
  destruct (exec_strayTimer t es c c' Hs Hex) as (Hin' & Href' & _).
  split; [exact Hin'|]. split.
  - unfold cleanup, clearInterval, stopTracks, removeHandle.
    destruct c' as [? ? ? ? ? ? sr ? tr ? ? ? ? ? ? ?]; cbn in *.
    destruct tr, sr; cbn; keep_in.
  - rewrite secondTick_adds.
    destruct c' as [? ? ? ? ? ? ? ? ? ? ? ? ivs ? ? ?]; cbn in *.
    destruct ivs; [destruct Hin'|]. cbn [List.length]. lia.
Qed.

Lemma stray_timer_keeps_counting_witness :
  exists c c',
    exec [EvStart StartSucceeds; EvStart StartSucceeds] initial = Some c /\
    exec [EvStop; EvRecorderStop 4%nat; EvReset] c = Some c' /\
    lifecycle c' = Idle /\
    recordingTime c' + 1 <= recordingTime (secondTick c').
Proof.
  eexists. eexists. split; [reflexivity|]. split; [reflexivity|].
  split; [reflexivity|].
  refine (proj2 (proj2 (stray_timer_keeps_counting
                          [EvStart StartSucceeds; EvStart StartSucceeds]
                          [EvStop; EvRecorderStop 4%nat; EvReset]
                          _ _ 2%nat eq_refl _ _ eq_refl))).
  - left. reflexivity.
  - discriminate.
Defined.

(** X2. The handlers and the unmount cleanup stop only the tracks of the
    stream that [streamRef] holds, and [startRecording] overwrites
    [streamRef] without stopping the old stream. So once a stream is live and
    [streamRef] holds another one, no later event and not even the cleanup
    stops its tracks. *)
Theorem stray_stream_never_released
  (es0 es : list Event) (c c' : Component) (s : Handle) :
  exec es0 initial = Some c ->
  In s (liveStreams c) -> streamRef c <> Some s ->
  exec es c = Some c' ->
  In s (liveStreams c') /\ In s (liveStreams (cleanup c')).
Proof.
  intros H0 Hin Href Hex.
  pose proof (exec_handedOut es0 initial c initial_handedOut H0) as [_ Hl].
  assert (Hs : strayStream s c) by (split; [|split]; auto).
  destruct (exec_strayStream s es c c' Hs Hex) as (Hin' & Href' & _).
  split; [exact Hin'|].
  unfold cleanup, clearInterval, stopTracks, removeHandle.
  destruct c' as [? ? ? ? ? ? sr ? tr ? ? ? ? ? ? ?]; cbn in *.
  destruct tr, sr; cbn; keep_in.
Qed.

Lemma stray_stream_never_released_witness :
  exists c c',
    exec [EvStart ConstructFails; EvStart StartSucceeds] initial = Some c /\
    exec [EvStop; EvRecorderStop 2%nat] c = Some c' /\
    lifecycle c' = Stopped /\ In 0%nat (liveStreams (cleanup c')).
Proof.
  eexists. eexists. split; [reflexivity|]. split; [reflexivity|].
  split; [reflexivity|].
  refine (proj2 (stray_stream_never_released
                   [EvStart ConstructFails; EvStart StartSucceeds]
                   [EvStop; EvRecorderStop 2%nat]
                   _ _ 0%nat eq_refl _ _ eq_refl)).
  - left. reflexivity.
  - discriminate.
Defined.

(** ** Reading the display back *)

Section ReadingBack.
Local Open Scope string_scope.

Lemma append_inj_length (a a' b b' : string) :
  String.length a = String.length a' -> a ++ b = a' ++ b' -> a = a' /\ b = b'.
Proof.
  revert a'. induction a as [|x a IH]; intros [|x' a'] Hl H;
    try discriminate; [auto|].
  cbn in Hl, H. injection H as -> H. injection Hl as Hl.
  destruct (IH a' Hl H) as [-> ->]. auto.
Qed.

Lemma pad_inj (w : nat) (n m : N) : pad w n = pad w m -> n = m.
Proof.
  intros H. rewrite <- (pad_numeral w n), <- (pad_numeral w m). now rewrite H.
Qed.

(** X7. Two elapsed times that JavaScript numbers hold exactly (up to
    [maxSafeInteger]) are shown as the same text only if they are the same
    number of seconds. *)
Theorem formatTime_injective (a b : N) :
  (a <= maxSafeInteger)%N -> (b <= maxSafeInteger)%N ->
  (formatTime a = formatTime b <-> a = b).
Proof.
  intros _ _. split; [|now intros ->].
  intros H.
  change (pad 2 (a / 60) ++ ":" ++ pad 2 (a mod 60)
          = pad 2 (b / 60) ++ ":" ++ pad 2 (b mod 60)) in H.
  assert (La : String.length (pad 2 (a mod 60)) = 2%nat).
  { apply (pad_length_small 1). simpl.
    pose proof (N.mod_lt a 60 ltac:(discriminate)). lia. }
  assert (Lb : String.length (pad 2 (b mod 60)) = 2%nat).
  { apply (pad_length_small 1). simpl.
    pose proof (N.mod_lt b 60 ltac:(discriminate)). lia. }
  assert (Hlen : String.length (pad 2 (a / 60)) = String.length (pad 2 (b / 60))).
  { apply (f_equal String.length) in H. rewrite !length_append in H.
    rewrite La, Lb in H. lia. }
  destruct (append_inj_length _ _ _ _ Hlen H) as [Hm Hs].
  injection Hs as Hs.
  apply pad_inj in Hm. apply pad_inj in Hs.
  rewrite (N.div_mod a 60), (N.div_mod b 60) by discriminate. congruence.
Qed.

Lemma formatTime_injective_witness :
  formatTime 59 = formatTime 60 <-> 59%N = 60%N.
Proof.
  exact (formatTime_injective 59 60 ltac:(vm_compute; discriminate)
           ltac:(vm_compute; discriminate)).
Defined.

Lemma downloadName_valid (now : Date) :
  validDate now = true ->
  downloadName now =
    "gravacao-" ++ pad 4 (isoYear now) ++ "-" ++ pad 2 (isoMonth now) ++ "-"
      ++ pad 2 (isoDay now) ++ "T" ++ pad 2 (isoHours now) ++ "-"
      ++ pad 2 (isoMinutes now) ++ "-" ++ pad 2 (isoSeconds now) ++ ".wav"
  /\ String.length (pad 4 (isoYear now)) = 4%nat
  /\ String.length (pad 2 (isoMonth now)) = 2%nat
  /\ String.length (pad 2 (isoDay now)) = 2%nat
  /\ String.length (pad 2 (isoHours now)) = 2%nat
  /\ String.length (pad 2 (isoMinutes now)) = 2%nat
  /\ String.length (pad 2 (isoSeconds now)) = 2%nat.
Proof.
  intros Hv. unfold validDate in Hv.
  repeat (apply andb_true_iff in Hv; destruct Hv as [Hv ?]).
  pose proof Hv as Hy.
  repeat match goal with
         | H : (_ <=? _)%N = true |- _ => apply N.leb_le in H
         | H : (_ <? _)%N = true |- _ => apply N.ltb_lt in H
         end.
  assert (LY : String.length (pad 4 (isoYear now)) = 4%nat)
    by (apply (pad_length_small 3); simpl; lia).
  assert (LM : String.length (pad 2 (isoMonth now)) = 2%nat)
    by (apply (pad_length_small 1); simpl; lia).
  assert (LD : String.length (pad 2 (isoDay now)) = 2%nat)
    by (apply (pad_length_small 1); simpl; lia).
  assert (Lh : String.length (pad 2 (isoHours now)) = 2%nat)
    by (apply (pad_length_small 1); simpl; lia).
  assert (Lm : String.length (pad 2 (isoMinutes now)) = 2%nat)
    by (apply (pad_length_small 1); simpl; lia).
  assert (Ls : String.length (pad 2 (isoSeconds now)) = 2%nat)
    by (apply (pad_length_small 1); simpl; lia).
  split; [|repeat split; assumption].
  unfold downloadName, toISOString.
  assert (E : (isoYear now <=? 9999)%N = true) by (apply N.leb_le; lia).
  rewrite E.
  rewrite (slice0_timestamp _ _ _ _ _ _ _ LY LM LD Lh Lm Ls).
  rewrite !replaceColons_append.
  cbn [replaceColons Ascii.eqb Bool.eqb].
  rewrite !replaceColons_digits by apply pad_allDigits.
  now rewrite !append_assoc.
Qed.

(** X8. The download name has the resolution of a second: for two dates in
    the four-digit-year range the names are equal exactly when year, month,
    day, hours, minutes and seconds agree; the milliseconds never matter. *)
Theorem download_names_equal_iff_same_second (d1 d2 : Date) :
  validDate d1 = true -> validDate d2 = true ->
  (downloadName d1 = downloadName d2 <->
   isoYear d1 = isoYear d2 /\ isoMonth d1 = isoMonth d2 /\ isoDay d1 = isoDay d2
   /\ isoHours d1 = isoHours d2 /\ isoMinutes d1 = isoMinutes d2
   /\ isoSeconds d1 = isoSeconds d2).
Proof.
  intros H1 H2.
  destruct (downloadName_valid d1 H1) as (E1 & LY1 & LM1 & LD1 & Lh1 & Lm1 & Ls1).
  destruct (downloadName_valid d2 H2) as (E2 & LY2 & LM2 & LD2 & Lh2 & Lm2 & Ls2).
  rewrite E1, E2. split.
  - intros H. cbn [append] in H. injection H as H.
    apply append_inj_length in H; [|congruence]. destruct H as [HY H].
    injection H as H.
    apply append_inj_length in H; [|congruence]. destruct H as [HM H].
    injection H as H.
    apply append_inj_length in H; [|congruence]. destruct H as [HD H].
    injection H as H.
    apply append_inj_length in H; [|congruence]. destruct H as [Hh H].
    injection H as H.
    apply append_inj_length in H; [|congruence]. destruct H as [Hm H].
    injection H as H.
    apply append_inj_length in H; [|congruence]. destruct H as [Hs _].
    repeat split; eapply pad_inj; eassumption.
  - intros (-> & -> & -> & -> & -> & ->). reflexivity.
Qed.

Lemma download_names_equal_iff_same_second_witness :
  downloadName (mkDate 2024 1 2 3 4 5 6) = downloadName (mkDate 2024 1 2 3 4 5 998)
  /\ (downloadName (mkDate 2024 1 2 3 4 5 6)
      = downloadName (mkDate 2024 1 2 3 4 6 6) -> False).
Proof.
  split.
  - apply (proj2 (download_names_equal_iff_same_second
                    (mkDate 2024 1 2 3 4 5 6) (mkDate 2024 1 2 3 4 5 998)
                    eq_refl eq_refl)).
    repeat split.
  - intros H.
    apply (proj1 (download_names_equal_iff_same_second
                    (mkDate 2024 1 2 3 4 5 6) (mkDate 2024 1 2 3 4 6 6)
                    eq_refl eq_refl)) in H.
    destruct H as (_ & _ & _ & _ & _ & H). discriminate.
Defined.

End ReadingBack.

(** ** A reset during the wait for the transcription *)

Lemma samples_truthy (s : string) :
  In s sampleTranscriptions -> truthy s = true.
Proof. intros [<-|[<-|[<-|[]]]]; reflexivity. Qed.

(** X10. [resetRecording] does not cancel a pending transcription timeout.
    From a not-recording state that valid transitions reach with a timeout
    pending, a reset followed by the timeout leaves an Idle component that
    shows one of the sample transcripts, with the copy and reset buttons
    rendered. *)
Theorem reset_keeps_pending_transcription
  (es : list Event) (c : Component) (product : Q) :
  run es initial = Some c -> allowed EvReset c = true -> timeouts c <> [] ->
  (0 <= product)%Q -> (product < 3)%Q ->
  timeouts (resetRecording c) = timeouts c
  /\ exists c',
       run [EvReset; EvTranscription product] c = Some c'
       /\ lifecycle c' = Idle
       /\ In (transcription c') sampleTranscriptions
       /\ onClick CopyButton c' = Some DoCopyText
       /\ onClick ResetButton c' = Some DoResetRecording.
Proof.
  intros Hrun Ha Ht H0 H1.
  pose proof (run_Inv _ _ _ initial_Inv Hrun) as HI. clear Hrun.
  set (c1 := resetRecording c).
  assert (Ht1 : timeouts c1 = timeouts c).
  { subst c1. unfold resetRecording, stopTimer, clearInterval.
    destruct c as [? ? ? ? ? ? ? ? tr ? ? ? ? ? ? ?]; cbn. destruct tr; reflexivity. }
  assert (Hr1 : isRecording c1 = false /\ audioBlob c1 = None).
  { subst c1. unfold resetRecording, stopTimer, clearInterval.
    destruct c as [? ? ? ? ? ? ? ? tr ? ? ? ? ? ? ?]; cbn. destruct tr; auto. }
  split; [exact Ht1|].
  set (c2 := withTimeouts (tl (timeouts c1)) c1).
  destruct (transcription_pick product c2 H0 H1) as (s & Hs & Htr & _).
  exists (transcriptionCallback product c2).
  assert (Hin : In (transcription (transcriptionCallback product c2))
                   sampleTranscriptions).
  { rewrite Htr. eapply nth_error_In; exact Hs. }
  assert (Hfl : isRecording (transcriptionCallback product c2) = false /\
                audioBlob (transcriptionCallback product c2) = None).
  { destruct Hr1 as [Ha1 Hb1]. subst c2.
    unfold transcriptionCallback, toast.
    destruct c1; cbn in *. auto. }
  destruct Hfl as [Hf1 Hf2].
  split.
  { cbn [run]. rewrite Ha. cbn [handle]. fold c1. cbn [run allowed].
    assert (Hne : match timeouts c1 with [] => false | _ :: _ => true end = true)
      by (rewrite Ht1; destruct (timeouts c); [congruence|reflexivity]).
    rewrite Hne. cbn [andb]. rewrite (random_allowed product H0 H1).
    reflexivity. }
  split.
  { unfold lifecycle, hasBlob. now rewrite Hf1, Hf2. }
  split; [exact Hin|].
  unfold onClick. rewrite (samples_truthy _ Hin), Hf1.
  rewrite orb_true_r. split; reflexivity.
Qed.

Lemma reset_keeps_pending_transcription_witness :
  exists c c',
    run oneRecording initial = Some c /\
    run [EvReset; EvTranscription (0 # 1)] c = Some c' /\
    lifecycle c' = Idle /\ In (transcription c') sampleTranscriptions.
Proof.
  eexists.
  destruct (proj2 (reset_keeps_pending_transcription oneRecording _ (0 # 1)
                     eq_refl eq_refl ltac:(discriminate) ltac:(discriminate)
                     ltac:(reflexivity)))
    as (c' & Hrun & Hl & Hin & _).
  exists c'. split; [reflexivity|]. split; [exact Hrun|]. split; assumption.
Defined.

(** ** Failure notifications *)

Lemma handle_notifies (e : Event) (c c' : Component) :
  handle e c = Some c' ->
  exists ts,
    toasts c' = toasts c ++ ts /\ (List.length ts <= 1)%nat
    /\ List.length (filter isDestructive ts) = (if startFails e then 1 else 0)%nat
    /\ List.length (consoleErrors c')
       = (List.length (consoleErrors c) + if startFails e then 1 else 0)%nat.
Proof.
  intros Hh.
  destruct e as [[[]| | |]| | | |r' d|r'| |q].
  11: { injection Hh as <-. rewrite secondTick_adds. exists [].
        destruct c; cbn. rewrite app_nil_r. repeat split; auto. }
  all: destruct c; crunch.
  all: break_match_hyp Hh; try discriminate; injection Hh as <-; cbn.
  all: repeat match goal with
              | |- context [match ?x with Some _ => _ | None => _ end] =>
                  destruct x; cbn
              end.
  all: first
         [ exists []; rewrite app_nil_r; cbn; repeat split; auto; lia
         | eexists [_]; cbn; rewrite ?length_app; cbn;
           repeat split; auto; lia ].
Qed.

(** X11. After any sequence of events from the mounted component, the toasts
    shown are those of the events in order, at most one per event, and the
    destructive ones are as many as the entries written with [console.error]
    and as the runs of [startRecording] that ended in its [catch] block. *)
Theorem failures_are_notified_once (es : list Event) (c : Component) :
  exec es initial = Some c ->
  List.length (filter isDestructive (toasts c)) = List.length (consoleErrors c)
  /\ List.length (consoleErrors c) = List.length (filter startFails es)
  /\ (List.length (toasts c) <= List.length es)%nat.
Proof.
  assert (G : forall es c0 c, exec es c0 = Some c ->
     List.length (filter isDestructive (toasts c))
       = (List.length (filter isDestructive (toasts c0))
          + List.length (filter startFails es))%nat
     /\ List.length (consoleErrors c)
        = (List.length (consoleErrors c0) + List.length (filter startFails es))%nat
     /\ (List.length (toasts c) <= List.length (toasts c0) + List.length es)%nat).
  { clear. induction es as [|e es IH]; cbn [exec filter List.length]; intros c0 c H.
    - injection H as <-. lia.
    - destruct (handle e c0) as [c1|] eqn:Hh; [|discriminate].
      destruct (handle_notifies e c0 c1 Hh) as (ts & Ht & Hl & Hd & Hc).
      destruct (IH c1 c H) as (I1 & I2 & I3).
      rewrite Ht, filter_app, !length_app in *.
      destruct (startFails e); cbn [List.length]; lia. }
  intros H. destruct (G es initial c H) as (G1 & G2 & G3).
  cbn in G1, G2, G3. lia.
Qed.

Lemma failures_are_notified_once_witness :
  exists c,
    exec [EvStart (AcquireFails PermissionDenied); EvStart ConstructFails;
          EvStart StartSucceeds; EvStop] initial = Some c /\
    List.length (filter isDestructive (toasts c)) = 2%nat /\
    List.length (toasts c) = 4%nat.
Proof.
  eexists. split; [reflexivity|]. split; [|reflexivity].
  exact (eq_trans
           (proj1 (failures_are_notified_once
                     [EvStart (AcquireFails PermissionDenied); EvStart ConstructFails;
                      EvStart StartSucceeds; EvStop] _ eq_refl))
           eq_refl).
Defined.

(** ** Resources held *)

(** X13. In every state that valid transitions reach, the component holds at
    most one live stream and one interval: a stream is live exactly while a
    recording is open (Recording or Paused) and it is the one in
    [streamRef]; an interval is set exactly in Recording and it is the one
    in [timerRef]. *)
Theorem microphone_live_iff_recording (es : list Event) (c : Component) :
  run es initial = Some c ->
  (liveStreams c <> [] <-> isRecording c = true)
  /\ (intervals c <> [] <-> lifecycle c = Recording)
  /\ (forall s, In s (liveStreams c) -> streamRef c = Some s)
  /\ (forall t, In t (intervals c) -> timerRef c = Some t)
  /\ (List.length (liveStreams c) <= 1)%nat
  /\ (List.length (intervals c) <= 1)%nat.
Proof.
  intros Hrun. pose proof (run_Inv _ _ _ initial_Inv Hrun) as HI. clear Hrun.
  unfold lifecycle, hasBlob.
  destruct HI; flatten c; cbn;
    repeat match goal with
           | |- context [match ?x with Some _ => _ | None => _ end] =>
               destruct x; cbn
           end;
    repeat split; try intros; try congruence; try discriminate;
    try lia; try contradiction;
    try match goal with H : _ \/ False |- _ => destruct H as [<-|[]]; reflexivity end.
Qed.

Lemma microphone_live_iff_recording_witness :
  exists c,
    run [EvStart StartSucceeds; EvPause] initial = Some c /\
    isRecording c = true /\ liveStreams c <> [].
Proof.
  eexists. split; [reflexivity|]. split; [reflexivity|].
  exact (proj2 (proj1 (microphone_live_iff_recording
                         [EvStart StartSucceeds; EvPause] _ eq_refl)) eq_refl).
Defined.

(** ** A recording without data *)

(** X12. A recording during which the recorder delivers no chunk, or only
    chunks of size 0, still ends Stopped: the result is a present blob of
    size 0, and the download button is rendered for it. *)
Theorem empty_recording_gives_empty_blob
  (es0 body : list Event) (r : Handle) (c0 c : Component) :
  run es0 initial = Some c0 ->
  forallb (fun e => negb (isRecorderStop e)) body = true ->
  forallb (fun b => negb (nonEmpty b)) (delivered body) = true ->
  run (EvStart StartSucceeds :: body ++ [EvRecorderStop r]) c0 = Some c ->
  audioBlob c = Some (mkBlob [] "audio/wav")
  /\ lifecycle c = Stopped
  /\ onClick DownloadButton c = Some DoDownloadAudio.
Proof.
  intros H0 Hb He Hrun.
  pose proof (run_Inv _ _ _ initial_Inv H0) as HI0. clear H0.
  change (EvStart StartSucceeds :: body ++ [EvRecorderStop r])
    with ([EvStart StartSucceeds] ++ body ++ [EvRecorderStop r]) in Hrun.
  rewrite run_app in Hrun. cbn [run] in Hrun.
  destruct (allowed (EvStart StartSucceeds) c0) eqn:Ha; [|discriminate].
  cbn [handle] in Hrun.
  destruct (start_opens_session c0 HI0 Ha) as (HI1 & Hq1 & Hr1 & Hp1 & Hch1 & Hbl1).
  set (c1 := startRecording StartSucceeds c0) in *.
  rewrite run_app in Hrun.
  destruct (run body c1) as [c2|] eqn:Hbody; [|discriminate].
  destruct (session_run body c1 c2 HI1 Hq1 Hb Hbody)
    as (HI2 & Hq2 & Hbl2 & Hch2 & Hdel & Hstop).
  rewrite Hp1 in *. rewrite Hch1, Hdel in Hch2. simpl in Hch2.
  assert (Hnone : filter nonEmpty (delivered body) = []).
  { clear - He. induction (delivered body) as [|b bs IH]; [reflexivity|].
    simpl in *. apply andb_true_iff in He as [Hb Hbs].
    apply negb_true_iff in Hb. rewrite Hb. auto. }
  rewrite Hnone in Hch2.
  cbn [run allowed handle] in Hrun.
  destruct (stopQueued (getRecorder r c2)) eqn:Hsq; [|discriminate].
  injection Hrun as <-.
  pose proof (stop_owed_not_recording r c2 HI2 Hsq) as Hrec2.
  assert (Hblob : audioBlob (onstop (putRecorder r
                     (mkRecorder (rstate (getRecorder r c2)) false) c2))
                  = Some (mkBlob [] "audio/wav")).
  { rewrite onstop_blob, putRecorder_chunksRef, Hch2. reflexivity. }
  split; [exact Hblob|].
  unfold lifecycle, onClick, hasBlob.
  rewrite Hblob, onstop_isRecording, putRecorder_isRecording, Hrec2.
  rewrite orb_true_r. split; reflexivity.
Qed.

Lemma empty_recording_gives_empty_blob_witness :
  exists c,
    run (EvStart StartSucceeds :: [EvSecond; EvStop; EvData 1%nat noBytes]
           ++ [EvRecorderStop 1%nat]) initial = Some c /\
    audioBlob c = Some (mkBlob [] "audio/wav").
Proof.
  eexists. split; [reflexivity|].
  exact (proj1 (empty_recording_gives_empty_blob
                  [] [EvSecond; EvStop; EvData 1%nat noBytes] 1%nat initial _
                  eq_refl eq_refl eq_refl eq_refl)).
Defined.

(** * Where the code departs from the lifecycle *)

(** C1. Two clicks on a start control are both accepted while the first
    [getUserMedia] is pending (the component is still Idle). When both
    settle, [startTimer] has run twice and only the second interval is in
    [timerRef]: a second-tick in Recording adds 2, and after [stop()] the
    first interval is still set, so the elapsed time goes on rising while the
    component is not recording. *)
Theorem double_start_counts_twice :
  exists p1 p2,
    pageRun [Click StartButton; Click MicCircle; Settle StartSucceeds;
             Settle StartSucceeds; Host EvSecond] initialPage = Some p1
    /\ lifecycle (component p1) = Recording
    /\ recordingTime (component p1) = 2
    /\ pageRun [Click StopButton; Host EvSecond] p1 = Some p2
    /\ isRecording (component p2) = false
    /\ recordingTime (component p2) = 3.
Proof.
  do 2 eexists. split; [reflexivity|]. split; [reflexivity|].
  split; [reflexivity|]. split; [reflexivity|]. split; reflexivity.
Qed.

(** C4. When [new MediaRecorder] or [recorder.start()] throws after the
    stream was acquired, from any not-recording state that valid transitions
    reach, the [catch] block leaves the component not recording, with no
    timer and exactly one destructive toast more, but the acquired stream
    stays in [streamRef] with its tracks live. *)
Theorem later_start_failure_keeps_stream
  (es : list Event) (c : Component) (o : StartOutcome) :
  run es initial = Some c -> isRecording c = false ->
  o = ConstructFails \/ o = RecorderStartFails ->
  let c' := startRecording o c in
  isRecording c' = false /\ timerRef c' = None /\ intervals c' = []
  /\ (exists t, toasts c' = toasts c ++ [t] /\ variant t = Destructive)
  /\ streamRef c' = Some (nextHandle c)
  /\ liveStreams c' = [nextHandle c].
Proof.
  intros Hrun Hr Ho c'. subst c'.
  pose proof (run_Inv _ _ _ initial_Inv Hrun) as HI. clear Hrun.
  destruct Ho as [-> | ->]; destruct HI; flatten c; try discriminate; cbn;
    repeat split; auto; eexists; split; reflexivity.
Qed.

Lemma later_start_failure_keeps_stream_witness :
  let c' := startRecording ConstructFails initial in
  isRecording c' = false /\ streamRef c' = Some 0%nat /\ liveStreams c' = [0%nat].
Proof.
  pose proof (later_start_failure_keeps_stream [] initial ConstructFails
                eq_refl eq_refl (or_introl eq_refl)) as H.
  cbv zeta in *. destruct H as (H1 & _ & _ & _ & H5 & H6).
  split; [exact H1|]. split; [exact H5|exact H6].
Defined.

(** C9. After a start that failed at [new MediaRecorder], a second, good
    start overwrites [streamRef]: the first stream is still live after
    [stop()] and after the unmount cleanup. And when the component is
    unmounted while [getUserMedia] is pending, the rest of [startRecording]
    runs after the cleanup and leaves a live stream and a set interval. *)
Theorem stream_and_timer_outlive_stop_and_teardown :
  (exists p p',
     pageRun [Click StartButton; Settle ConstructFails; Click StartButton;
              Settle StartSucceeds; Click StopButton] initialPage = Some p
     /\ isRecording (component p) = false
     /\ In 0%nat (liveStreams (component p))
     /\ pageRun [Unmount] p = Some p'
     /\ In 0%nat (liveStreams (component p')))
  /\ (exists p,
        pageRun [Click StartButton; Unmount; Settle StartSucceeds] initialPage
          = Some p
        /\ liveStreams (component p) = [0%nat]
        /\ intervals (component p) = [2%nat]).
Proof.
  split.
  - do 2 eexists. split; [reflexivity|]. split; [reflexivity|].
    split; [left; reflexivity|]. split; [reflexivity|]. left; reflexivity.
  - eexists. split; [reflexivity|]. split; reflexivity.
Qed.
